(** * Servo command / safety core of the robot-arm control API

    A shallow embedding of [src/hardware/gpio_config.py] (the speed to
    duty-cycle codec) and of [src/hardware/servo_controller.py] (the
    [ServoController] class), followed by the properties of the
    specification that concern them.

    Modelling choices.
    - Python floats are modelled by exact rationals ([Q]); the codec
      results are therefore the ones of exact arithmetic.  Comparisons
      are the boolean comparisons of [Q], so the source's [==] is
      [Qeq_bool].
    - Python exceptions are values of [PyError]; a function that may
      raise returns an [except].
    - Python dictionaries are finite maps ([gmap]); the configuration,
      whose iteration order decides which servos are constructed before
      a failure, is an ordered list of pairs.
    - [threading.Lock] is the non-reentrant lock of the Python standard
      library: a boolean in the controller state, and a call that
      acquires it while it is held never returns ([Blocked]). *)

From Stdlib Require Import QArith Lqa ZArith Bool.
From stdpp Require Import gmap strings list fin_maps.

Open Scope Q_scope.

(** ** Exceptions *)

Inductive PyError : Type :=
| ValueError          (* raised by the codec on an out-of-range input *)
| ZeroDivisionError   (* float division by zero *)
| KeyError            (* subscript of a dictionary with an absent key *)
| GPIOZeroError.      (* any fault of the PWM output device *)

Inductive except (A : Type) : Type :=
| Ok (a : A)
| Err (e : PyError).
Arguments Ok {A} a.
Arguments Err {A} e.

(** ** gpio_config.py *)

Module gpio_config.

Definition PWM_FREQUENCY : Z := 50.

Definition CENTER_DUTY_CYCLE : Q := 0.0696.
Definition MIN_DUTY_CYCLE : Q := 0.05.
Definition MAX_DUTY_CYCLE : Q := 0.10.

(** [a > b] on floats. *)
Definition Qgt_bool (a b : Q) : bool := negb (Qle_bool a b).

(** [a / b] on floats: division by zero raises. *)
Definition truediv (a b : Q) : except Q :=
  if Qeq_bool b 0 then Err ZeroDivisionError else Ok (a / b).

Definition speed_to_duty_cycle (speed : Q) : except Q :=
  if negb (Qle_bool (-1.0) speed && Qle_bool speed 1.0) then
    Err ValueError
  else if Qeq_bool speed 0 then
    Ok CENTER_DUTY_CYCLE
  else if Qgt_bool speed 0 then
    Ok (CENTER_DUTY_CYCLE + (speed * (MAX_DUTY_CYCLE - CENTER_DUTY_CYCLE)))
  else
    Ok (CENTER_DUTY_CYCLE + (speed * (CENTER_DUTY_CYCLE - MIN_DUTY_CYCLE))).

Definition duty_cycle_to_speed (duty_cycle : Q) : except Q :=
  if negb (Qle_bool MIN_DUTY_CYCLE duty_cycle
           && Qle_bool duty_cycle MAX_DUTY_CYCLE) then
    Err ValueError
  else if Qeq_bool duty_cycle CENTER_DUTY_CYCLE then
    Ok 0.0
  else if Qgt_bool duty_cycle CENTER_DUTY_CYCLE then
    truediv (duty_cycle - CENTER_DUTY_CYCLE)
            (MAX_DUTY_CYCLE - CENTER_DUTY_CYCLE)
  else
    truediv (duty_cycle - CENTER_DUTY_CYCLE)
            (CENTER_DUTY_CYCLE - MIN_DUTY_CYCLE).

End gpio_config.

(** ** config_manager.py: the part the controller reads *)

Module config_manager.

(** [class ServoConfig(BaseModel)]. *)
Record ServoConfig : Type := { name : string; pin : Z }.

(** The dictionary [ConfigManager._servos], in insertion order (the
    order of the entries of the YAML document). *)
Definition ServoConfigs : Type := list (string * ServoConfig).

(** [ConfigManager.get_all_servos]: a copy of the dictionary, or the
    empty dictionary. *)
Definition get_all_servos (servos : ServoConfigs) : ServoConfigs := servos.

End config_manager.

(** ** servo_controller.py *)

Module servo_controller.
Import gpio_config config_manager.

(** [@dataclass class ServoState]. *)
Record ServoState : Type := { speed : Q; is_running : bool }.

(** [ServoState()], the defaults of the dataclass. *)
Definition ServoState_default : ServoState :=
  {| speed := 0.0; is_running := false |}.

(** [state.speed = v] and [state.is_running = b]. *)
Definition set_speed (v : Q) (state : ServoState) : ServoState :=
  {| speed := v; is_running := is_running state |}.

Definition set_is_running (b : bool) (state : ServoState) : ServoState :=
  {| speed := speed state; is_running := b |}.

(** The handle [gpiozero.PWMOutputDevice] as far as the controller
    uses it: the pin and frequency it was opened with and the duty
    cycle last written to it. *)
Record PWMOutputDevice : Type :=
  { dev_pin : Z; dev_frequency : Z; value : Q }.

(** The hardware is outside the repository.  Whether constructing a
    device on a pin, or writing a duty cycle to it, raises is decided
    by an oracle given to each call.  [close()] does not raise. *)
Record Hardware : Type :=
  { pwm_construct : Z -> bool;
    pwm_write : Z -> Q -> bool }.

(** The attributes of a [ServoController] object.  [_lock] is [true]
    while the [threading.Lock] is held. *)
Record ServoController : Type :=
  { config : ServoConfigs;
    _servos : gmap string PWMOutputDevice;
    _servo_states : gmap string ServoState;
    _lock : bool;
    _emergency_stop_active : bool }.

Definition set_servos (m : gmap string PWMOutputDevice)
    (c : ServoController) : ServoController :=
  {| config := config c; _servos := m; _servo_states := _servo_states c;
     _lock := _lock c; _emergency_stop_active := _emergency_stop_active c |}.

Definition set_servo_states (m : gmap string ServoState)
    (c : ServoController) : ServoController :=
  {| config := config c; _servos := _servos c; _servo_states := m;
     _lock := _lock c; _emergency_stop_active := _emergency_stop_active c |}.

Definition set_lock (b : bool) (c : ServoController) : ServoController :=
  {| config := config c; _servos := _servos c;
     _servo_states := _servo_states c;
     _lock := b; _emergency_stop_active := _emergency_stop_active c |}.

Definition set_emergency_stop_active (b : bool)
    (c : ServoController) : ServoController :=
  {| config := config c; _servos := _servos c;
     _servo_states := _servo_states c;
     _lock := _lock c; _emergency_stop_active := b |}.

(** *** Outcomes of a method call

    A call returns a value, lets an exception escape, or never
    returns because the calling thread waits for a lock that is never
    released.  Each outcome carries the controller as the call leaves
    it. *)
Inductive result (A : Type) : Type :=
| Return (a : A) (c : ServoController)
| Raise (e : PyError) (c : ServoController)
| Blocked (c : ServoController).
Arguments Return {A} a c.
Arguments Raise {A} e c.
Arguments Blocked {A} c.

Definition M (A : Type) : Type := ServoController -> result A.

Definition ret {A} (a : A) : M A := fun c => Return a c.

Definition bind {A B} (m : M A) (k : A -> M B) : M B := fun c =>
  match m c with
  | Return a c' => k a c'
  | Raise e c' => Raise e c'
  | Blocked c' => Blocked c'
  end.

Definition raise {A} (e : PyError) : M A := fun c => Raise e c.

Definition get : M ServoController := fun c => Return c c.

Definition modify (f : ServoController -> ServoController) : M unit :=
  fun c => Return tt (f c).

Definition lift {A} (x : except A) : M A :=
  match x with Ok a => ret a | Err e => raise e end.

Notation "x <- c1 ;; c2" := (bind c1 (fun x => c2))
  (at level 100, c1 at next level, right associativity).
Notation "c1 ;; c2" := (bind c1 (fun _ => c2))
  (at level 100, right associativity).

(** [with self._lock: body].  [Lock.acquire] on a held lock waits; the
    lock is released when the body returns or raises. *)
Definition with_lock {A} (body : M A) : M A := fun c =>
  if _lock c then Blocked c
  else match body (set_lock true c) with
       | Return a c' => Return a (set_lock false c')
       | Raise e c' => Raise e (set_lock false c')
       | Blocked c' => Blocked c'
       end.

(** [try: body  except Exception as e: handler]. *)
Definition try_except {A} (body : M A) (handler : PyError -> M A) : M A :=
  fun c =>
    match body c with
    | Return a c' => Return a c'
    | Raise e c' => handler e c'
    | Blocked c' => Blocked c'
    end.

(** The controller as a call leaves it. *)
Definition after {A} (r : result A) : ServoController :=
  match r with Return _ c | Raise _ c | Blocked c => c end.

(** *** Hardware accesses *)

(** [PWMOutputDevice(pin=..., frequency=..., initial_value=...)]. *)
Definition PWMOutputDevice_new (hw : Hardware)
    (pin frequency : Z) (initial_value : Q) : except PWMOutputDevice :=
  if pwm_construct hw pin then
    Ok {| dev_pin := pin; dev_frequency := frequency;
          value := initial_value |}
  else Err GPIOZeroError.

(** [self._servos[servo_id].value = duty_cycle]. *)
Definition write_value (hw : Hardware) (servo_id : string)
    (duty_cycle : Q) : M unit := fun c =>
  match _servos c !! servo_id with
  | None => Raise KeyError c
  | Some servo =>
      if pwm_write hw (dev_pin servo) duty_cycle then
        Return tt
          (set_servos
             (<[servo_id := {| dev_pin := dev_pin servo;
                               dev_frequency := dev_frequency servo;
                               value := duty_cycle |}]> (_servos c)) c)
      else Raise GPIOZeroError c
  end.

(** [self._servo_states[servo_id].<attr> = ...]: an update in place of
    the state object stored under [servo_id]. *)
Definition update_state (servo_id : string)
    (f : ServoState -> ServoState) : M unit := fun c =>
  match _servo_states c !! servo_id with
  | None => Raise KeyError c
  | Some st =>
      Return tt (set_servo_states (<[servo_id := f st]> (_servo_states c)) c)
  end.

(** *** The class *)

(** [ServoController.__init__], given what [get_config_manager()]
    holds. *)
Definition ServoController__init__ (cfg : ServoConfigs) : ServoController :=
  {| config := cfg; _servos := ∅; _servo_states := ∅;
     _lock := false; _emergency_stop_active := false |}.

(** Closes every device, then clears both dictionaries. *)
Definition _cleanup_servos : M unit :=
  modify (set_servos ∅) ;;
  modify (set_servo_states ∅).

(** The loop of [initialize_servos]; a failed construction is caught
    inside the loop and returns [False] at once. *)
Fixpoint initialize_each (hw : Hardware) (servo_configs : ServoConfigs)
    : M bool :=
  match servo_configs with
  | [] => ret true
  | (servo_id, servo_config) :: rest =>
      match PWMOutputDevice_new hw (pin servo_config)
              PWM_FREQUENCY CENTER_DUTY_CYCLE with
      | Ok servo =>
          modify (fun c => set_servos (<[servo_id := servo]> (_servos c)) c) ;;
          modify (fun c => set_servo_states
                    (<[servo_id := ServoState_default]> (_servo_states c)) c) ;;
          initialize_each hw rest
      | Err _ => ret false
      end
  end.

Definition initialize_servos (hw : Hardware) : M bool :=
  try_except
    (with_lock
       (_cleanup_servos ;;
        c <- get ;;
        let servo_configs := get_all_servos (config c) in
        match servo_configs with
        | [] => ret false
        | _ => initialize_each hw servo_configs
        end))
    (fun _ => ret false).

Definition set_servo_speed (hw : Hardware) (servo_id : string) (speed : Q)
    : M bool :=
  try_except
    (with_lock
       (c <- get ;;
        if _emergency_stop_active c then ret false
        else match _servos c !! servo_id with
        | None => ret false
        | Some _ =>
          duty_cycle <- lift (speed_to_duty_cycle speed) ;;
          write_value hw servo_id duty_cycle ;;
          update_state servo_id (set_speed speed) ;;
          update_state servo_id
            (set_is_running (negb (Qeq_bool speed 0.0))) ;;
          ret true
        end))
    (fun _ => ret false).

Definition stop_servo (hw : Hardware) (servo_id : string) : M bool :=
  set_servo_speed hw servo_id 0.0.

(** The loop of [stop_all_servos] over the keys of [self._servos]. *)
Fixpoint stop_each (hw : Hardware) (servo_ids : list string)
    (success : bool) : M bool :=
  match servo_ids with
  | [] => ret success
  | servo_id :: rest =>
      ok <- stop_servo hw servo_id ;;
      stop_each hw rest (if negb ok then false else success)
  end.

Definition stop_all_servos (hw : Hardware) : M bool :=
  try_except
    (with_lock
       (c <- get ;;
        stop_each hw (map_to_list (_servos c)).*1 true))
    (fun _ => ret false).

Definition emergency_stop (hw : Hardware) : M bool :=
  try_except
    (with_lock
       (modify (set_emergency_stop_active true) ;;
        stop_all_servos hw))
    (fun _ => ret false).

Definition clear_emergency_stop : M bool :=
  with_lock
    (modify (set_emergency_stop_active false) ;;
     ret true).

(** The dictionary [{"speed": ..., "is_running": ...}] is returned as
    a [ServoState] value. *)
Definition get_servo_status (servo_id : string) (c : ServoController)
    : option ServoState :=
  match _servo_states c !! servo_id with
  | None => None
  | Some state =>
      Some {| speed := speed state; is_running := is_running state |}
  end.

Definition get_all_servo_status (c : ServoController)
    : gmap string ServoState :=
  map_imap (fun servo_id _ => get_servo_status servo_id c) (_servo_states c).

Definition is_emergency_stop_active (c : ServoController) : bool :=
  _emergency_stop_active c.

Definition cleanup (hw : Hardware) : M unit :=
  stop_all_servos hw ;;
  _cleanup_servos.

(** *** The public operations as one step function *)

Inductive Op : Type :=
| OpInitialize
| OpSetSpeed (servo_id : string) (speed : Q)
| OpStop (servo_id : string)
| OpStopAll
| OpEmergencyStop
| OpClearEmergencyStop
| OpCleanup.

(** The controller after one public operation, whatever its outcome. *)
Definition run_op (hw : Hardware) (op : Op) (c : ServoController)
    : ServoController :=
  match op with
  | OpInitialize => after (initialize_servos hw c)
  | OpSetSpeed servo_id speed => after (set_servo_speed hw servo_id speed c)
  | OpStop servo_id => after (stop_servo hw servo_id c)
  | OpStopAll => after (stop_all_servos hw c)
  | OpEmergencyStop => after (emergency_stop hw c)
  | OpClearEmergencyStop => after (clear_emergency_stop c)
  | OpCleanup => after (cleanup hw c)
  end.

End servo_controller.

(** ** api/routes.py: the two status handlers

    The handlers are [async] functions of the FastAPI application; what
    is modelled is the value their body returns or the exception it
    raises, given the controller.  [datetime.utcnow()] is a parameter. *)

Module routes.
Import servo_controller.

(** The values stored in a status dictionary. *)
Inductive PyValue : Type :=
| VFloat (x : Q)
| VBool (b : bool).

(** The dictionary literal [{"speed": ..., "is_running": ...}] that
    [ServoController.get_servo_status] builds. *)
Definition status_dict (state : ServoState) : gmap string PyValue :=
  <["speed" := VFloat (servo_controller.speed state)]>
    (<["is_running" := VBool (servo_controller.is_running state)]> ∅).

(** [servo_controller.get_all_servo_status()] as the handlers see it. *)
Definition servo_statuses (c : ServoController)
    : gmap string (gmap string PyValue) :=
  status_dict <$> get_all_servo_status c.

(** What a handler body raises: an exception of the code it calls, or
    the validation error of a pydantic model. *)
Inductive HandlerError : Type :=
| Uncaught (e : PyError)
| ValidationError.

(** [class ServoStatus(BaseModel)] of api/models.py. *)
Record ServoStatus : Type :=
  { status : PyValue;
    direction : option PyValue;
    runtime : PyValue;
    speed : PyValue;
    is_running : PyValue }.

(** [ServoStatus(status=..., direction=..., runtime=...)]: the required
    fields [speed] and [is_running] are not passed, so the model is
    rejected. *)
Definition ServoStatus_new (status : PyValue) (direction : option PyValue)
    (runtime : PyValue) : HandlerError + ServoStatus :=
  inl ValidationError.

(** The loop shared by [get_system_status] and [get_servo_list]. *)
Fixpoint format_statuses (items : list (string * gmap string PyValue))
    (formatted_statuses : gmap string ServoStatus)
    : HandlerError + gmap string ServoStatus :=
  match items with
  | [] => inr formatted_statuses
  | (servo_id, status) :: rest =>
      match status !! "status" with
      | None => inl (Uncaught KeyError)
      | Some status_value =>
          let direction_value := status !! "direction" in
          match status !! "runtime" with
          | None => inl (Uncaught KeyError)
          | Some runtime_value =>
              match ServoStatus_new status_value direction_value
                      runtime_value with
              | inl e => inl e
              | inr servo_status =>
                  format_statuses rest
                    (<[servo_id := servo_status]> formatted_statuses)
              end
          end
      end
  end.

(** [GET /api/servos]. *)
Definition get_servo_list (c : ServoController)
    : HandlerError + gmap string ServoStatus :=
  format_statuses (map_to_list (servo_statuses c)) ∅.

(** [class SystemStatus(BaseModel)] of api/models.py. *)
Record SystemStatus : Type :=
  { system_status : string;
    emergency_stop_active : bool;
    servos : gmap string ServoStatus;
    timestamp : Z }.

(** [GET /api/status]. *)
Definition get_system_status (utcnow : Z) (c : ServoController)
    : HandlerError + SystemStatus :=
  match format_statuses (map_to_list (servo_statuses c)) ∅ with
  | inl e => inl e
  | inr formatted_statuses =>
      inr {| system_status := "running";
             emergency_stop_active := is_emergency_stop_active c;
             servos := formatted_statuses;
             timestamp := utcnow |}
  end.

End routes.

Import gpio_config config_manager servo_controller.

(** * Vocabulary of the properties *)

(** The invariant of the data model: a servo has speed zero exactly when
    it is not running. *)
Definition states_consistent (states : gmap string ServoState) : Prop :=
  forall servo_id state,
    states !! servo_id = Some state ->
    (speed state == 0 <-> is_running state = false).

Definition consistent (c : ServoController) : Prop :=
  states_consistent (_servo_states c).

(** Every registered servo is stopped. *)
Definition all_stopped (c : ServoController) : Prop :=
  forall servo_id state,
    _servo_states c !! servo_id = Some state ->
    speed state == 0 /\ is_running state = false.

(** A property of the controller that a computation keeps, whatever its
    outcome. *)
Definition preserves {A} (P : ServoController -> Prop) (m : M A) : Prop :=
  forall c, P c -> P (after (m c)).

(** A property that does not look at the lock. *)
Definition lock_blind (P : ServoController -> Prop) : Prop :=
  forall b c, P c -> P (set_lock b c).

(** The entries of the configuration that [initialize_servos] constructs:
    those before the first one whose construction fails. *)
Fixpoint constructed_prefix (hw : Hardware) (servo_configs : ServoConfigs)
    : ServoConfigs :=
  match servo_configs with
  | [] => []
  | (servo_id, servo_config) :: rest =>
      if pwm_construct hw (pin servo_config) then
        (servo_id, servo_config) :: constructed_prefix hw rest
      else []
  end.

Definition flag_set (c : ServoController) : Prop :=
  _emergency_stop_active c = true.

(** The device [initialize_servos] constructs for a configuration entry. *)
Definition new_servo (servo_config : ServoConfig) : PWMOutputDevice :=
  {| dev_pin := pin servo_config; dev_frequency := PWM_FREQUENCY;
     value := CENTER_DUTY_CYCLE |}.

(** The two dictionaries after the entries [entries] have been stored,
    in order, on top of [servos] and [states]. *)
Definition register_all (entries : ServoConfigs)
    (servos : gmap string PWMOutputDevice) : gmap string PWMOutputDevice :=
  foldl (fun m e => <[e.1 := new_servo e.2]> m) servos entries.

Definition default_states (entries : ServoConfigs)
    (states : gmap string ServoState) : gmap string ServoState :=
  foldl (fun m e => <[e.1 := ServoState_default]> m) states entries.

(** The identifiers of a list of configuration entries. *)
Definition ids_of (entries : ServoConfigs) : gset string :=
  list_to_set entries.*1.

(** Every configured device can be constructed. *)
Definition all_constructible (hw : Hardware) (servo_configs : ServoConfigs)
    : bool :=
  forallb (fun e => pwm_construct hw (pin e.2)) servo_configs.

(** Concrete inputs used in the examples below. *)
Definition hw_ok : Hardware :=
  {| pwm_construct := fun _ => true; pwm_write := fun _ _ => true |}.

(** Hardware on which the device of pin 27 cannot be constructed. *)
Definition hw_pin27_broken : Hardware :=
  {| pwm_construct := fun p => negb (p =? 27)%Z;
     pwm_write := fun _ _ => true |}.

Definition two_servos : ServoConfigs :=
  [("base", {| name := "Base"; pin := 17 |});
   ("gripper", {| name := "Gripper"; pin := 27 |})].

(** The controller after [initialize_servos()] on [two_servos]. *)
Definition initialized : ServoController :=
  after (initialize_servos hw_ok (ServoController__init__ two_servos)).

(** ... and after [set_servo_speed("base", 0.5)]. *)
Definition base_running : ServoController :=
  after (set_servo_speed hw_ok "base" 0.5 initialized).

(** A controller whose flag is set and whose lock is free. *)
Definition halted : ServoController :=
  set_emergency_stop_active true base_running.

(** ** Further vocabulary *)

(** A servo with a device also has a state object. *)
Definition registry_sync (c : ServoController) : Prop :=
  forall servo_id,
    is_Some (_servos c !! servo_id) <-> is_Some (_servo_states c !! servo_id).

(** Every recorded speed lies in [-1, 1]. *)
Definition speeds_in_range (c : ServoController) : Prop :=
  forall servo_id state,
    _servo_states c !! servo_id = Some state ->
    -1 <= speed state /\ speed state <= 1.

(** The duty cycle last written to each device is the one of the speed
    recorded for its servo. *)
Definition output_matches_speed (c : ServoController) : Prop :=
  forall servo_id servo state,
    _servos c !! servo_id = Some servo ->
    _servo_states c !! servo_id = Some state ->
    speed_to_duty_cycle (speed state) = Ok (value servo).

(** [servo.value = duty_cycle] on the device object. *)
Definition with_value (duty_cycle : Q) (servo : PWMOutputDevice)
    : PWMOutputDevice :=
  {| dev_pin := dev_pin servo; dev_frequency := dev_frequency servo;
     value := duty_cycle |}.

(** The controller after a successful [set_servo_speed(servo_id, v)] that
    wrote [duty_cycle] to the device [servo]. *)
Definition speed_set (servo_id : string) (v duty_cycle : Q)
    (servo : PWMOutputDevice) (c : ServoController) : ServoController :=
  set_servo_states
    (<[servo_id := {| speed := v; is_running := negb (Qeq_bool v 0.0) |}]>
       (_servo_states c))
    (set_servos (<[servo_id := with_value duty_cycle servo]> (_servos c)) c).

(** Hardware on which every write fails. *)
Definition hw_write_broken : Hardware :=
  {| pwm_construct := fun _ => true; pwm_write := fun _ _ => false |}.

(** The outcome of a public operation, without the value it returns. *)
Definition outcome_of {A} (r : result A) : result unit :=
  match r with
  | Return _ c => Return tt c
  | Raise e c => Raise e c
  | Blocked c => Blocked c
  end.

Definition call (hw : Hardware) (op : Op) (c : ServoController)
    : result unit :=
  match op with
  | OpInitialize => outcome_of (initialize_servos hw c)
  | OpSetSpeed servo_id v => outcome_of (set_servo_speed hw servo_id v c)
  | OpStop servo_id => outcome_of (stop_servo hw servo_id c)
  | OpStopAll => outcome_of (stop_all_servos hw c)
  | OpEmergencyStop => outcome_of (emergency_stop hw c)
  | OpClearEmergencyStop => outcome_of (clear_emergency_stop c)
  | OpCleanup => outcome_of (cleanup hw c)
  end.

(** The controllers that public operations can produce from a new one.
    An operation that does not return still leaves a controller, on
    which later calls act. *)
Inductive reachable : ServoController -> Prop :=
| reachable_init (cfg : ServoConfigs) :
    reachable (ServoController__init__ cfg)
| reachable_step (hw : Hardware) (op : Op) (c : ServoController) :
    reachable c -> reachable (run_op hw op c).

(** * Properties *)

(** ** The codec *)

Section Codec.

(** Boolean comparisons of [Q] against their propositions. *)
Lemma Qle_bool_false (a b : Q) : Qle_bool a b = false <-> b < a.
Proof.
  rewrite <- not_true_iff_false, Qle_bool_iff. split; intros H.
  - now apply Qnot_le_lt.
  - now apply Qlt_not_le.
Qed.

Lemma Qeq_bool_false (a b : Q) : Qeq_bool a b = false <-> ~ a == b.
Proof.
  rewrite <- not_true_iff_false, Qeq_bool_iff. reflexivity.
Qed.

Lemma Qgt_bool_true (a b : Q) : Qgt_bool a b = true <-> b < a.
Proof.
  unfold Qgt_bool. rewrite negb_true_iff. apply Qle_bool_false.
Qed.

Lemma Qgt_bool_false (a b : Q) : Qgt_bool a b = false <-> a <= b.
Proof.
  unfold Qgt_bool. rewrite negb_false_iff. apply Qle_bool_iff.
Qed.

Lemma MIN_lt_CENTER : MIN_DUTY_CYCLE < CENTER_DUTY_CYCLE.
Proof. reflexivity. Qed.

Lemma CENTER_lt_MAX : CENTER_DUTY_CYCLE < MAX_DUTY_CYCLE.
Proof. reflexivity. Qed.

(** The three branches of [speed_to_duty_cycle]. *)
Lemma speed_to_duty_cycle_zero (s : Q) :
  s == 0 -> speed_to_duty_cycle s = Ok CENTER_DUTY_CYCLE.
Proof.
  intros H. unfold speed_to_duty_cycle.
  assert (Qle_bool (-1.0) s = true) as -> by (apply Qle_bool_iff; lra).
  assert (Qle_bool s 1.0 = true) as -> by (apply Qle_bool_iff; lra).
  assert (Qeq_bool s 0 = true) as -> by (now apply Qeq_bool_iff).
  reflexivity.
Qed.

Lemma speed_to_duty_cycle_pos (s : Q) :
  0 < s -> s <= 1 ->
  speed_to_duty_cycle s =
    Ok (CENTER_DUTY_CYCLE + s * (MAX_DUTY_CYCLE - CENTER_DUTY_CYCLE)).
Proof.
  intros H0 H1. unfold speed_to_duty_cycle.
  assert (Qle_bool (-1.0) s = true) as -> by (apply Qle_bool_iff; lra).
  assert (Qle_bool s 1.0 = true) as -> by (apply Qle_bool_iff; lra).
  assert (Qeq_bool s 0 = false) as -> by (apply Qeq_bool_false; lra).
  assert (Qgt_bool s 0 = true) as -> by (now apply Qgt_bool_true).
  reflexivity.
Qed.

Lemma speed_to_duty_cycle_neg (s : Q) :
  -1 <= s -> s < 0 ->
  speed_to_duty_cycle s =
    Ok (CENTER_DUTY_CYCLE + s * (CENTER_DUTY_CYCLE - MIN_DUTY_CYCLE)).
Proof.
  intros H0 H1. unfold speed_to_duty_cycle.
  assert (Qle_bool (-1.0) s = true) as -> by (apply Qle_bool_iff; lra).
  assert (Qle_bool s 1.0 = true) as -> by (apply Qle_bool_iff; lra).
  assert (Qeq_bool s 0 = false) as -> by (apply Qeq_bool_false; lra).
  assert (Qgt_bool s 0 = false) as -> by (apply Qgt_bool_false; lra).
  reflexivity.
Qed.

Lemma speed_to_duty_cycle_out (s : Q) :
  s < -1 \/ 1 < s -> speed_to_duty_cycle s = Err ValueError.
Proof.
  intros H. unfold speed_to_duty_cycle.
  destruct H as [H | H].
  - assert (Qle_bool (-1.0) s = false) as ->
      by (apply Qle_bool_false; lra).
    reflexivity.
  - assert (Qle_bool s 1.0 = false) as ->
      by (apply Qle_bool_false; lra).
    now rewrite andb_false_r.
Qed.

(** The three branches of [duty_cycle_to_speed]. *)
Lemma duty_cycle_to_speed_center (d : Q) :
  d == CENTER_DUTY_CYCLE -> duty_cycle_to_speed d = Ok 0.0.
Proof.
  intros H. unfold duty_cycle_to_speed.
  pose proof MIN_lt_CENTER. pose proof CENTER_lt_MAX.
  assert (Qle_bool MIN_DUTY_CYCLE d = true) as ->
    by (apply Qle_bool_iff; lra).
  assert (Qle_bool d MAX_DUTY_CYCLE = true) as ->
    by (apply Qle_bool_iff; lra).
  assert (Qeq_bool d CENTER_DUTY_CYCLE = true) as ->
    by (now apply Qeq_bool_iff).
  reflexivity.
Qed.

Lemma duty_cycle_to_speed_above (d : Q) :
  CENTER_DUTY_CYCLE < d -> d <= MAX_DUTY_CYCLE ->
  duty_cycle_to_speed d =
    Ok ((d - CENTER_DUTY_CYCLE) / (MAX_DUTY_CYCLE - CENTER_DUTY_CYCLE)).
Proof.
  intros H0 H1. unfold duty_cycle_to_speed.
  pose proof MIN_lt_CENTER.
  assert (Qle_bool MIN_DUTY_CYCLE d = true) as ->
    by (apply Qle_bool_iff; lra).
  assert (Qle_bool d MAX_DUTY_CYCLE = true) as ->
    by (apply Qle_bool_iff; lra).
  assert (Qeq_bool d CENTER_DUTY_CYCLE = false) as ->
    by (apply Qeq_bool_false; lra).
  assert (Qgt_bool d CENTER_DUTY_CYCLE = true) as ->
    by (now apply Qgt_bool_true).
  reflexivity.
Qed.

Lemma duty_cycle_to_speed_below (d : Q) :
  MIN_DUTY_CYCLE <= d -> d < CENTER_DUTY_CYCLE ->
  duty_cycle_to_speed d =
    Ok ((d - CENTER_DUTY_CYCLE) / (CENTER_DUTY_CYCLE - MIN_DUTY_CYCLE)).
Proof.
  intros H0 H1. unfold duty_cycle_to_speed.
  pose proof CENTER_lt_MAX.
  assert (Qle_bool MIN_DUTY_CYCLE d = true) as ->
    by (apply Qle_bool_iff; lra).
  assert (Qle_bool d MAX_DUTY_CYCLE = true) as ->
    by (apply Qle_bool_iff; lra).
  assert (Qeq_bool d CENTER_DUTY_CYCLE = false) as ->
    by (apply Qeq_bool_false; lra).
  assert (Qgt_bool d CENTER_DUTY_CYCLE = false) as ->
    by (apply Qgt_bool_false; lra).
  reflexivity.
Qed.

Lemma duty_cycle_to_speed_out (d : Q) :
  d < MIN_DUTY_CYCLE \/ MAX_DUTY_CYCLE < d ->
  duty_cycle_to_speed d = Err ValueError.
Proof.
  intros H. unfold duty_cycle_to_speed.
  destruct H as [H | H].
  - assert (Qle_bool MIN_DUTY_CYCLE d = false) as ->
      by (now apply Qle_bool_false).
    reflexivity.
  - assert (Qle_bool d MAX_DUTY_CYCLE = false) as ->
      by (now apply Qle_bool_false).
    now rewrite andb_false_r.
Qed.

End Codec.

Section CodecClaims.

(** For an in-range speed the duty cycle lies in the calibrated band. *)
Lemma speed_to_duty_cycle_bounded (s : Q) :
  -1 <= s -> s <= 1 ->
  exists d, speed_to_duty_cycle s = Ok d
            /\ MIN_DUTY_CYCLE <= d /\ d <= MAX_DUTY_CYCLE.
Proof.
  intros Hlo Hhi.
  destruct (Q_dec s 0) as [[Hneg | Hpos] | Hzero].
  - rewrite speed_to_duty_cycle_neg by assumption.
    eexists; split; [reflexivity |].
    unfold CENTER_DUTY_CYCLE, MIN_DUTY_CYCLE, MAX_DUTY_CYCLE. lra.
  - rewrite speed_to_duty_cycle_pos by assumption.
    eexists; split; [reflexivity |].
    unfold CENTER_DUTY_CYCLE, MIN_DUTY_CYCLE, MAX_DUTY_CYCLE. lra.
  - rewrite speed_to_duty_cycle_zero by assumption.
    eexists; split; [reflexivity |].
    unfold CENTER_DUTY_CYCLE, MIN_DUTY_CYCLE, MAX_DUTY_CYCLE. lra.
Qed.

(** C5: for every speed [s] in [-1, 1], [speed_to_duty_cycle s]
    succeeds with a duty cycle that [duty_cycle_to_speed] accepts, and
    converting back gives [s] again (equality of rationals: the floats
    of the source are taken as exact numbers). *)
Theorem duty_cycle_round_trip (s : Q) :
  -1 <= s -> s <= 1 ->
  exists d s', speed_to_duty_cycle s = Ok d
               /\ duty_cycle_to_speed d = Ok s'
               /\ s' == s.
Proof.
  intros Hlo Hhi.
  destruct (Q_dec s 0) as [[Hneg | Hpos] | Hzero].
  - exists (CENTER_DUTY_CYCLE + s * (CENTER_DUTY_CYCLE - MIN_DUTY_CYCLE)).
    eexists. split; [now apply speed_to_duty_cycle_neg |].
    split.
    + apply duty_cycle_to_speed_below;
        unfold CENTER_DUTY_CYCLE, MIN_DUTY_CYCLE; lra.
    + unfold CENTER_DUTY_CYCLE, MIN_DUTY_CYCLE. field.
  - exists (CENTER_DUTY_CYCLE + s * (MAX_DUTY_CYCLE - CENTER_DUTY_CYCLE)).
    eexists. split; [now apply speed_to_duty_cycle_pos |].
    split.
    + apply duty_cycle_to_speed_above;
        unfold CENTER_DUTY_CYCLE, MAX_DUTY_CYCLE; lra.
    + unfold CENTER_DUTY_CYCLE, MAX_DUTY_CYCLE. field.
  - exists CENTER_DUTY_CYCLE, 0.0.
    split; [now apply speed_to_duty_cycle_zero |].
    split; [now apply duty_cycle_to_speed_center |].
    lra.
Qed.

Lemma duty_cycle_round_trip_witness :
  exists d s', speed_to_duty_cycle (-0.3) = Ok d
               /\ duty_cycle_to_speed d = Ok s'
               /\ s' == -0.3.
Proof.
  apply (duty_cycle_round_trip (-0.3)); vm_compute; discriminate.
Defined.

(** C6: on [-1, 1] the duty cycle is non-decreasing in the speed and
    lies between [MIN_DUTY_CYCLE] and [MAX_DUTY_CYCLE]. *)
Theorem speed_to_duty_cycle_monotone_bounded (s1 s2 : Q) :
  -1 <= s1 -> s1 <= s2 -> s2 <= 1 ->
  exists d1 d2, speed_to_duty_cycle s1 = Ok d1
                /\ speed_to_duty_cycle s2 = Ok d2
                /\ d1 <= d2
                /\ MIN_DUTY_CYCLE <= d1 /\ d1 <= MAX_DUTY_CYCLE
                /\ MIN_DUTY_CYCLE <= d2 /\ d2 <= MAX_DUTY_CYCLE.
Proof.
  intros Hlo Hle Hhi.
  destruct (speed_to_duty_cycle_bounded s1) as (d1 & E1 & B1 & B1');
    [lra | lra |].
  destruct (speed_to_duty_cycle_bounded s2) as (d2 & E2 & B2 & B2');
    [lra | lra |].
  exists d1, d2. repeat split; try assumption.
  clear B1 B1' B2 B2'.
  destruct (Q_dec s1 0) as [[N1 | P1] | Z1];
    [ rewrite speed_to_duty_cycle_neg in E1 by lra
    | rewrite speed_to_duty_cycle_pos in E1 by lra
    | rewrite speed_to_duty_cycle_zero in E1 by lra ];
    (destruct (Q_dec s2 0) as [[N2 | P2] | Z2];
      [ rewrite speed_to_duty_cycle_neg in E2 by lra
      | rewrite speed_to_duty_cycle_pos in E2 by lra
      | rewrite speed_to_duty_cycle_zero in E2 by lra ]);
    injection E1 as <-; injection E2 as <-;
    unfold CENTER_DUTY_CYCLE, MIN_DUTY_CYCLE, MAX_DUTY_CYCLE; lra.
Qed.

Lemma speed_to_duty_cycle_monotone_bounded_witness :
  exists d1 d2, speed_to_duty_cycle (-0.5) = Ok d1
                /\ speed_to_duty_cycle 0.25 = Ok d2
                /\ d1 <= d2
                /\ MIN_DUTY_CYCLE <= d1 /\ d1 <= MAX_DUTY_CYCLE
                /\ MIN_DUTY_CYCLE <= d2 /\ d2 <= MAX_DUTY_CYCLE.
Proof.
  apply (speed_to_duty_cycle_monotone_bounded (-0.5) 0.25);
    vm_compute; discriminate.
Defined.

(** Neither conversion raises anything but [ValueError]. *)
Lemma speed_to_duty_cycle_total (s : Q) :
  (-1 <= s /\ s <= 1 /\ exists d, speed_to_duty_cycle s = Ok d)
  \/ ((s < -1 \/ 1 < s) /\ speed_to_duty_cycle s = Err ValueError).
Proof.
  destruct (Qlt_le_dec s (-1)) as [H | H].
  - right. split; [now left | apply speed_to_duty_cycle_out; now left].
  - destruct (Qlt_le_dec 1 s) as [H' | H'].
    + right. split; [now right | apply speed_to_duty_cycle_out; now right].
    + left. repeat split; try assumption.
      destruct (speed_to_duty_cycle_bounded s H H') as (d & E & _).
      now exists d.
Qed.

Lemma duty_cycle_to_speed_total (d : Q) :
  (MIN_DUTY_CYCLE <= d /\ d <= MAX_DUTY_CYCLE
   /\ exists s, duty_cycle_to_speed d = Ok s)
  \/ ((d < MIN_DUTY_CYCLE \/ MAX_DUTY_CYCLE < d)
      /\ duty_cycle_to_speed d = Err ValueError).
Proof.
  destruct (Qlt_le_dec d MIN_DUTY_CYCLE) as [H | H].
  - right. split; [now left | apply duty_cycle_to_speed_out; now left].
  - destruct (Qlt_le_dec MAX_DUTY_CYCLE d) as [H' | H'].
    + right. split; [now right | apply duty_cycle_to_speed_out; now right].
    + left. repeat split; try assumption.
      destruct (Q_dec d CENTER_DUTY_CYCLE) as [[L | G] | E].
      * eexists. now apply duty_cycle_to_speed_below.
      * eexists. now apply duty_cycle_to_speed_above.
      * eexists. now apply duty_cycle_to_speed_center.
Qed.

(** C7: [speed_to_duty_cycle] raises [ValueError] exactly on the
    speeds outside [-1, 1] (1.5 among them) and returns a duty cycle
    on all others; [duty_cycle_to_speed] raises [ValueError] exactly
    on the duty cycles outside [MIN_DUTY_CYCLE, MAX_DUTY_CYCLE] and
    returns a speed on all others. *)
Theorem codec_rejects_exactly_out_of_range :
  (forall s, speed_to_duty_cycle s = Err ValueError
             <-> ~ (-1 <= s /\ s <= 1))
  /\ (forall s, (exists d, speed_to_duty_cycle s = Ok d)
                <-> (-1 <= s /\ s <= 1))
  /\ speed_to_duty_cycle 1.5 = Err ValueError
  /\ (forall d, duty_cycle_to_speed d = Err ValueError
                <-> ~ (MIN_DUTY_CYCLE <= d /\ d <= MAX_DUTY_CYCLE))
  /\ (forall d, (exists s, duty_cycle_to_speed d = Ok s)
                <-> (MIN_DUTY_CYCLE <= d /\ d <= MAX_DUTY_CYCLE)).
Proof.
  split; [| split; [| split; [| split]]].
  - intros s.
    destruct (speed_to_duty_cycle_total s)
      as [(Hlo & Hhi & d & E) | (Hout & E)]; rewrite E; split.
    + discriminate.
    + intros H. exfalso. apply H. now split.
    + intros _ [Hlo Hhi]. destruct Hout; lra.
    + reflexivity.
  - intros s.
    destruct (speed_to_duty_cycle_total s)
      as [(Hlo & Hhi & d & E) | (Hout & E)]; rewrite E; split.
    + intros _. now split.
    + intros _. now exists d.
    + intros [d' E']. discriminate.
    + intros [Hlo Hhi]. destruct Hout; lra.
  - reflexivity.
  - intros d.
    destruct (duty_cycle_to_speed_total d)
      as [(Hlo & Hhi & s & E) | (Hout & E)]; rewrite E; split.
    + discriminate.
    + intros H. exfalso. apply H. now split.
    + intros _ [Hlo Hhi]. destruct Hout; lra.
    + reflexivity.
  - intros d.
    destruct (duty_cycle_to_speed_total d)
      as [(Hlo & Hhi & s & E) | (Hout & E)]; rewrite E; split.
    + intros _. now split.
    + intros _. now exists s.
    + intros [s' E']. discriminate.
    + intros [Hlo Hhi]. destruct Hout; lra.
Qed.

Lemma codec_rejects_exactly_out_of_range_witness :
  (exists d, speed_to_duty_cycle 0.5 = Ok d)
  /\ (exists s, duty_cycle_to_speed 0.07 = Ok s).
Proof.
  destruct codec_rejects_exactly_out_of_range as (_ & Hs & _ & _ & Hd).
  split.
  - apply Hs. split; vm_compute; discriminate.
  - apply Hd. split; vm_compute; discriminate.
Defined.

End CodecClaims.

(** ** The controller: how the combinators keep a property *)

Section Preservation.
Context (P : ServoController -> Prop).

Lemma preserves_ret {A} (a : A) : preserves P (ret a).
Proof. intros c H. exact H. Qed.

Lemma preserves_raise {A} (e : PyError) : preserves P (@raise A e).
Proof. intros c H. exact H. Qed.

Lemma preserves_get : preserves P get.
Proof. intros c H. exact H. Qed.

Lemma preserves_lift {A} (x : except A) : preserves P (lift x).
Proof. destruct x; [apply preserves_ret | apply preserves_raise]. Qed.

Lemma preserves_modify (f : ServoController -> ServoController) :
  (forall c, P c -> P (f c)) -> preserves P (modify f).
Proof. intros Hf c H. apply Hf, H. Qed.

Lemma preserves_bind {A B} (m : M A) (k : A -> M B) :
  preserves P m -> (forall a, preserves P (k a)) -> preserves P (bind m k).
Proof.
  intros Hm Hk c H. specialize (Hm c H). unfold bind.
  destruct (m c) as [a c' | e c' | c']; cbn in *.
  - apply Hk, Hm.
  - exact Hm.
  - exact Hm.
Qed.

Lemma preserves_try_except {A} (body : M A) (handler : PyError -> M A) :
  preserves P body -> (forall e, preserves P (handler e)) ->
  preserves P (try_except body handler).
Proof.
  intros Hb Hh c H. specialize (Hb c H). unfold try_except.
  destruct (body c) as [a c' | e c' | c']; cbn in *.
  - exact Hb.
  - apply Hh, Hb.
  - exact Hb.
Qed.

Lemma preserves_with_lock {A} (body : M A) :
  lock_blind P -> preserves P body -> preserves P (with_lock body).
Proof.
  intros Hl Hb c H. unfold with_lock.
  destruct (_lock c); [exact H |].
  specialize (Hb (set_lock true c) (Hl true c H)).
  destruct (body (set_lock true c)) as [a c' | e c' | c']; cbn in *.
  - apply Hl, Hb.
  - apply Hl, Hb.
  - exact Hb.
Qed.

End Preservation.

(** ** The invariant [consistent] *)

Section Consistent.

Lemma consistent_lock_blind : lock_blind consistent.
Proof. intros b c H. exact H. Qed.

Lemma consistent_set_servos m c :
  consistent c -> consistent (set_servos m c).
Proof. intros H. exact H. Qed.

Lemma consistent_set_flag b c :
  consistent c -> consistent (set_emergency_stop_active b c).
Proof. intros H. exact H. Qed.

Lemma consistent_empty c : consistent (set_servo_states ∅ c).
Proof.
  intros servo_id state H. cbn in H.
  rewrite lookup_empty in H. discriminate.
Qed.

Lemma states_consistent_insert servo_id state states :
  (speed state == 0 <-> is_running state = false) ->
  states_consistent states ->
  states_consistent (<[servo_id := state]> states).
Proof.
  intros Hs H id st Hl.
  destruct (decide (servo_id = id)) as [-> | Hne].
  - rewrite lookup_insert_eq in Hl. injection Hl as <-. exact Hs.
  - rewrite lookup_insert_ne in Hl by assumption. now apply (H id).
Qed.

Lemma consistent_default :
  speed ServoState_default == 0 <-> is_running ServoState_default = false.
Proof. split; reflexivity. Qed.

Lemma consistent_cleanup_servos : preserves consistent _cleanup_servos.
Proof.
  apply preserves_bind.
  - apply preserves_modify. intros c. apply consistent_set_servos.
  - intros _. apply preserves_modify. intros c _. apply consistent_empty.
Qed.

Lemma consistent_initialize_each hw servo_configs :
  preserves consistent (initialize_each hw servo_configs).
Proof.
  induction servo_configs as [| [servo_id servo_config] rest IH]; cbn.
  - apply preserves_ret.
  - destruct (PWMOutputDevice_new _ _ _ _); [| apply preserves_ret].
    apply preserves_bind.
    { apply preserves_modify. intros c. apply consistent_set_servos. }
    intros _. apply preserves_bind; [| intros _; exact IH].
    apply preserves_modify. intros c.
    intros H. apply states_consistent_insert; [apply consistent_default | exact H].
Qed.

Lemma consistent_initialize_servos hw :
  preserves consistent (initialize_servos hw).
Proof.
  apply preserves_try_except; [| intros e; apply preserves_ret].
  apply preserves_with_lock; [apply consistent_lock_blind |].
  apply preserves_bind; [apply consistent_cleanup_servos | intros _].
  apply preserves_bind; [apply preserves_get | intros c].
  cbn. destruct (get_all_servos (config c)) eqn:E.
  - apply preserves_ret.
  - apply consistent_initialize_each.
Qed.

Lemma consistent_write_value hw servo_id duty_cycle :
  preserves consistent (write_value hw servo_id duty_cycle).
Proof.
  intros c H. unfold write_value.
  destruct (_servos c !! servo_id) as [servo |]; [| exact H].
  destruct (pwm_write hw (dev_pin servo) duty_cycle); exact H.
Qed.

(** The two assignments to the state object, taken together. *)
Lemma consistent_update_state servo_id (v : Q) :
  preserves consistent
    (update_state servo_id (set_speed v) ;;
     update_state servo_id (set_is_running (negb (Qeq_bool v 0.0))) ;;
     ret true).
Proof.
  intros c H. unfold bind, update_state.
  destruct (_servo_states c !! servo_id) as [state |] eqn:E; [| exact H].
  cbn [_servo_states set_servo_states]. rewrite lookup_insert_eq.
  cbn [after ret]. rewrite insert_insert_eq.
  apply states_consistent_insert; [| exact H].
  cbn. destruct (Qeq_bool v 0.0) eqn:Ev; cbn.
  - apply Qeq_bool_iff in Ev. split; [reflexivity | intros _; lra].
  - apply Qeq_bool_false in Ev. split; [intros Hv; lra | discriminate].
Qed.

Lemma consistent_set_servo_speed hw servo_id v :
  preserves consistent (set_servo_speed hw servo_id v).
Proof.
  apply preserves_try_except; [| intros e; apply preserves_ret].
  apply preserves_with_lock; [apply consistent_lock_blind |].
  apply preserves_bind; [apply preserves_get | intros c].
  destruct (_emergency_stop_active c); [apply preserves_ret |].
  destruct (_servos c !! servo_id); [| apply preserves_ret].
  apply preserves_bind; [apply preserves_lift | intros duty_cycle].
  apply preserves_bind; [apply consistent_write_value | intros _].
  apply consistent_update_state.
Qed.

End Consistent.

(** ** Operations built from [set_servo_speed] *)

Section Derived.
Context (P : ServoController -> Prop).
Context (P_lock : lock_blind P).
Context (P_set_servo_speed :
           forall hw servo_id v, preserves P (set_servo_speed hw servo_id v)).

Lemma preserves_stop_servo hw servo_id : preserves P (stop_servo hw servo_id).
Proof. apply P_set_servo_speed. Qed.

Lemma preserves_stop_each hw servo_ids success :
  preserves P (stop_each hw servo_ids success).
Proof.
  revert success.
  induction servo_ids as [| servo_id rest IH]; intros success; cbn.
  - apply preserves_ret.
  - apply preserves_bind; [apply preserves_stop_servo |].
    intros ok. apply IH.
Qed.

Lemma preserves_stop_all_servos hw : preserves P (stop_all_servos hw).
Proof.
  apply preserves_try_except; [| intros e; apply preserves_ret].
  apply preserves_with_lock; [exact P_lock |].
  apply preserves_bind; [apply preserves_get | intros c].
  apply preserves_stop_each.
Qed.

Lemma preserves_emergency_stop hw :
  (forall c, P c -> P (set_emergency_stop_active true c)) ->
  preserves P (emergency_stop hw).
Proof.
  intros Hflag.
  apply preserves_try_except; [| intros e; apply preserves_ret].
  apply preserves_with_lock; [exact P_lock |].
  apply preserves_bind; [now apply preserves_modify | intros _].
  apply preserves_stop_all_servos.
Qed.

Lemma preserves_cleanup hw :
  preserves P _cleanup_servos -> preserves P (cleanup hw).
Proof.
  intros Hc. apply preserves_bind; [| intros _; exact Hc].
  apply preserves_stop_all_servos.
Qed.

End Derived.

Section ConsistentOps.

Lemma consistent_clear_emergency_stop :
  preserves consistent clear_emergency_stop.
Proof.
  apply preserves_with_lock; [apply consistent_lock_blind |].
  apply preserves_bind; [| intros _; apply preserves_ret].
  apply preserves_modify. intros c. apply consistent_set_flag.
Qed.

Lemma consistent_run_op hw op c : consistent c -> consistent (run_op hw op c).
Proof.
  destruct op; cbn [run_op].
  - apply consistent_initialize_servos.
  - apply consistent_set_servo_speed.
  - apply consistent_set_servo_speed.
  - apply preserves_stop_all_servos;
      [apply consistent_lock_blind | apply consistent_set_servo_speed].
  - apply preserves_emergency_stop;
      [ apply consistent_lock_blind | apply consistent_set_servo_speed
      | intros c'; apply consistent_set_flag ].
  - apply consistent_clear_emergency_stop.
  - apply preserves_cleanup;
      [ apply consistent_lock_blind | apply consistent_set_servo_speed
      | apply consistent_cleanup_servos ].
Qed.

End ConsistentOps.

(** ** The emergency-stop flag *)

Section Flag.

Lemma flag_lock_blind : lock_blind flag_set.
Proof. intros b c H. exact H. Qed.

Lemma flag_write_value hw servo_id duty_cycle :
  preserves flag_set (write_value hw servo_id duty_cycle).
Proof.
  intros c H. unfold write_value.
  destruct (_servos c !! servo_id) as [servo |]; [| exact H].
  destruct (pwm_write hw (dev_pin servo) duty_cycle); exact H.
Qed.

Lemma flag_update_state servo_id f :
  preserves flag_set (update_state servo_id f).
Proof.
  intros c H. unfold update_state.
  destruct (_servo_states c !! servo_id); exact H.
Qed.

Lemma flag_set_servo_speed hw servo_id v :
  preserves flag_set (set_servo_speed hw servo_id v).
Proof.
  apply preserves_try_except; [| intros e; apply preserves_ret].
  apply preserves_with_lock; [apply flag_lock_blind |].
  apply preserves_bind; [apply preserves_get | intros c].
  destruct (_emergency_stop_active c); [apply preserves_ret |].
  destruct (_servos c !! servo_id); [| apply preserves_ret].
  apply preserves_bind; [apply preserves_lift | intros duty_cycle].
  apply preserves_bind; [apply flag_write_value | intros _].
  apply preserves_bind; [apply flag_update_state | intros _].
  apply preserves_bind; [apply flag_update_state | intros _].
  apply preserves_ret.
Qed.

Lemma flag_cleanup_servos : preserves flag_set _cleanup_servos.
Proof.
  apply preserves_bind; [| intros _]; apply preserves_modify;
    intros c H; exact H.
Qed.

Lemma flag_initialize_each hw servo_configs :
  preserves flag_set (initialize_each hw servo_configs).
Proof.
  induction servo_configs as [| [servo_id servo_config] rest IH]; cbn.
  - apply preserves_ret.
  - destruct (PWMOutputDevice_new _ _ _ _); [| apply preserves_ret].
    apply preserves_bind.
    { apply preserves_modify. intros c H. exact H. }
    intros _. apply preserves_bind; [| intros _; exact IH].
    apply preserves_modify. intros c H. exact H.
Qed.

Lemma flag_initialize_servos hw : preserves flag_set (initialize_servos hw).
Proof.
  apply preserves_try_except; [| intros e; apply preserves_ret].
  apply preserves_with_lock; [apply flag_lock_blind |].
  apply preserves_bind; [apply flag_cleanup_servos | intros _].
  apply preserves_bind; [apply preserves_get | intros c].
  cbn. destruct (get_all_servos (config c)) eqn:E.
  - apply preserves_ret.
  - apply flag_initialize_each.
Qed.

End Flag.

(** ** The interlock and the lock *)

Section Interlock.

Lemma set_lock_release c : _lock c = false -> set_lock false (set_lock true c) = c.
Proof. destruct c; cbn; intros ->; reflexivity. Qed.

(** A call on a held lock waits forever and changes nothing. *)
Lemma with_lock_held {A} (body : M A) c :
  _lock c = true -> with_lock body c = Blocked c.
Proof. intros H. unfold with_lock. now rewrite H. Qed.

(** With the flag set, [set_servo_speed] takes the first [return False]:
    nothing is written, whatever the speed (0.0 included). *)
Lemma set_servo_speed_refused hw servo_id v c :
  _emergency_stop_active c = true ->
  set_servo_speed hw servo_id v c
  = if _lock c then Blocked c else Return false c.
Proof.
  intros Hflag. unfold set_servo_speed, try_except, with_lock.
  destruct (_lock c) eqn:Hlock; [reflexivity |].
  unfold bind, get. cbn [_emergency_stop_active set_lock].
  rewrite Hflag. cbn. now rewrite set_lock_release.
Qed.

(** [emergency_stop] takes the lock, sets the flag and calls
    [stop_all_servos], which waits for the lock its caller holds. *)
Lemma emergency_stop_outcome hw c :
  emergency_stop hw c
  = if _lock c then Blocked c
    else Blocked (set_lock true (set_emergency_stop_active true c)).
Proof.
  unfold emergency_stop, try_except, with_lock at 1.
  destruct (_lock c) eqn:Hlock; [reflexivity |].
  unfold bind at 1, modify.
  unfold stop_all_servos, try_except.
  now rewrite with_lock_held.
Qed.

(** Called on its own, [stop_all_servos] returns only when no servo is
    registered: its first [stop_servo] waits for the lock the loop
    holds. *)
Lemma stop_all_servos_outcome hw c :
  _lock c = false ->
  stop_all_servos hw c
  = match map_to_list (_servos c) with
    | [] => Return true c
    | _ :: _ => Blocked (set_lock true c)
    end.
Proof.
  intros Hlock. unfold stop_all_servos, try_except, with_lock.
  rewrite Hlock. unfold bind at 1, get. cbn [_servos set_lock].
  destruct (map_to_list (_servos c)) as [| [servo_id servo] rest].
  - cbn. now rewrite set_lock_release.
  - cbn [fmap list_fmap fst stop_each]. unfold bind, stop_servo.
    unfold set_servo_speed, try_except.
    now rewrite with_lock_held.
Qed.

End Interlock.

(** ** Initialization *)

Section Initialize.

Lemma dom_register_all entries servos :
  dom (register_all entries servos) = dom servos ∪ ids_of entries.
Proof.
  revert servos. unfold register_all, ids_of.
  induction entries as [| [servo_id servo_config] rest IH];
    intros servos; cbn.
  - now rewrite (right_id_L ∅ (∪)).
  - rewrite IH, dom_insert_L.
    rewrite (comm_L (∪) {[servo_id]} (dom servos)).
    now rewrite <- (assoc_L (∪)).
Qed.

Lemma dom_default_states entries states :
  dom (default_states entries states) = dom states ∪ ids_of entries.
Proof.
  revert states. unfold default_states, ids_of.
  induction entries as [| [servo_id servo_config] rest IH];
    intros states; cbn.
  - now rewrite (right_id_L ∅ (∪)).
  - rewrite IH, dom_insert_L.
    rewrite (comm_L (∪) {[servo_id]} (dom states)).
    now rewrite <- (assoc_L (∪)).
Qed.

Lemma default_states_lookup entries states servo_id state :
  default_states entries states !! servo_id = Some state ->
  state = ServoState_default \/ states !! servo_id = Some state.
Proof.
  revert states. unfold default_states.
  induction entries as [| [id servo_config] rest IH]; intros states; cbn.
  - now right.
  - intros H. destruct (IH _ H) as [-> | H']; [now left |].
    destruct (decide (id = servo_id)) as [-> | Hne].
    + rewrite lookup_insert_eq in H'. injection H' as <-. now left.
    + rewrite lookup_insert_ne in H' by assumption. now right.
Qed.

Lemma register_all_lookup entries servos servo_id servo :
  register_all entries servos !! servo_id = Some servo ->
  value servo = CENTER_DUTY_CYCLE \/ servos !! servo_id = Some servo.
Proof.
  revert servos. unfold register_all.
  induction entries as [| [id servo_config] rest IH]; intros servos; cbn.
  - now right.
  - intros H. destruct (IH _ H) as [E | H']; [now left |].
    destruct (decide (id = servo_id)) as [-> | Hne].
    + rewrite lookup_insert_eq in H'. injection H' as <-. now left.
    + rewrite lookup_insert_ne in H' by assumption. now right.
Qed.

Lemma all_constructible_prefix hw servo_configs :
  all_constructible hw servo_configs = true
  <-> constructed_prefix hw servo_configs = servo_configs.
Proof.
  induction servo_configs as [| [servo_id servo_config] rest IH]; cbn.
  - split; reflexivity.
  - destruct (pwm_construct hw (pin servo_config)); cbn.
    + rewrite IH. split; intros H; [now f_equal | now injection H].
    + split; discriminate.
Qed.

(** The loop stores the entries before the first failing construction
    and returns whether there was none. *)
Lemma initialize_each_outcome hw servo_configs c :
  initialize_each hw servo_configs c
  = Return (all_constructible hw servo_configs)
      (set_servo_states
         (default_states (constructed_prefix hw servo_configs)
            (_servo_states c))
         (set_servos
            (register_all (constructed_prefix hw servo_configs) (_servos c))
            c)).
Proof.
  revert c.
  induction servo_configs as [| [servo_id servo_config] rest IH];
    intros c; cbn [initialize_each constructed_prefix].
  - destruct c; reflexivity.
  - unfold PWMOutputDevice_new.
    destruct (pwm_construct hw (pin servo_config)) eqn:E.
    + unfold bind, modify. rewrite IH. cbn. rewrite E. reflexivity.
    + cbn. rewrite E. destruct c; reflexivity.
Qed.

Lemma initialize_servos_outcome hw c :
  _lock c = false ->
  initialize_servos hw c
  = Return
      (match config c with
       | [] => false
       | _ => all_constructible hw (config c)
       end)
      (set_servo_states
         (default_states (constructed_prefix hw (config c)) ∅)
         (set_servos (register_all (constructed_prefix hw (config c)) ∅)
            c)).
Proof.
  intros Hlock. unfold initialize_servos, try_except, with_lock.
  rewrite Hlock. unfold _cleanup_servos, bind, modify, get, get_all_servos.
  cbn [config set_servos set_servo_states set_lock].
  destruct (config c) as [| e rest] eqn:Ecfg.
  - cbn. f_equal. destruct c; cbn in *; subst. reflexivity.
  - rewrite initialize_each_outcome. f_equal.
    destruct c; cbn in *; subst. reflexivity.
Qed.

End Initialize.

(** ** The claims about the controller *)

Section ControllerClaims.

(** C1 (the code at the failing input): with the servo "base" running
    at speed 0.5, [emergency_stop()] does not return: it sets the flag
    and then waits for the lock it holds itself.  The controller is
    left with the flag set and "base" still at speed 0.5 with
    [is_running] true, so not every servo is stopped.  Independently
    of the lock, once the flag is set the stop of a servo is refused:
    [stop_servo("base")] returns [False] and changes nothing. *)
Theorem emergency_stop_leaves_servo_running :
  emergency_stop hw_ok base_running
  = Blocked (set_lock true (set_emergency_stop_active true base_running))
  /\ is_emergency_stop_active (after (emergency_stop hw_ok base_running))
     = true
  /\ get_servo_status "base" (after (emergency_stop hw_ok base_running))
     = Some {| speed := 0.5; is_running := true |}
  /\ get_all_servo_status (after (emergency_stop hw_ok base_running))
       !! "base"
     = Some {| speed := 0.5; is_running := true |}
  /\ ~ all_stopped (after (emergency_stop hw_ok base_running))
  /\ stop_servo hw_ok "base" halted = Return false halted
  /\ get_servo_status "base" halted
     = Some {| speed := 0.5; is_running := true |}.
Proof.
  assert (get_servo_status "base" (after (emergency_stop hw_ok base_running))
          = Some {| speed := 0.5; is_running := true |}) as Hbase
    by (vm_compute; reflexivity).
  split; [vm_compute; reflexivity |].
  split; [vm_compute; reflexivity |].
  split; [exact Hbase |].
  split; [vm_compute; reflexivity |].
  split.
  - intros Hall. unfold get_servo_status in Hbase.
    destruct (_servo_states (after (emergency_stop hw_ok base_running))
                !! "base") as [state |] eqn:E; [| discriminate].
    destruct (Hall "base" state E) as [_ Hrun].
    injection Hbase as _ Hr. congruence.
  - split; [| vm_compute; reflexivity].
    apply (set_servo_speed_refused hw_ok "base" 0.0 halted). reflexivity.
Qed.

(** C2 (the code on every controller whose lock is free):
    [emergency_stop()] sets the flag and then never returns, because
    [stop_all_servos()] waits for the lock that [emergency_stop] holds;
    no device is written and no result is produced. *)
Theorem emergency_stop_never_returns hw c :
  _lock c = false ->
  emergency_stop hw c
  = Blocked (set_lock true (set_emergency_stop_active true c))
  /\ _servos (after (emergency_stop hw c)) = _servos c
  /\ _servo_states (after (emergency_stop hw c)) = _servo_states c.
Proof.
  intros Hlock. rewrite emergency_stop_outcome, Hlock.
  repeat split.
Qed.

Lemma emergency_stop_never_returns_witness :
  emergency_stop hw_ok base_running
  = Blocked (set_lock true (set_emergency_stop_active true base_running))
  /\ _servos (after (emergency_stop hw_ok base_running))
     = _servos base_running
  /\ _servo_states (after (emergency_stop hw_ok base_running))
     = _servo_states base_running.
Proof.
  apply (emergency_stop_never_returns hw_ok base_running).
  vm_compute. reflexivity.
Defined.

(** C4 as stated fails: with the servos "base" (pin 17) and "gripper"
    (pin 27) configured and the construction of the device on pin 27
    failing, [initialize_servos()] returns [False] and the registry
    still holds "base". *)
Lemma initialize_servos_partial_registry :
  let r := initialize_servos hw_pin27_broken
             (ServoController__init__ two_servos) in
  (exists c', r = Return false c')
  /\ _servos (after r) !! "base"
     = Some {| dev_pin := 17; dev_frequency := 50;
               value := CENTER_DUTY_CYCLE |}
  /\ _servos (after r) !! "gripper" = None
  /\ _servos (after r) <> ∅.
Proof.
  cbv zeta.
  assert (_servos (after (initialize_servos hw_pin27_broken
                            (ServoController__init__ two_servos))) !! "base"
          = Some {| dev_pin := 17; dev_frequency := 50;
                    value := CENTER_DUTY_CYCLE |}) as Hbase
    by (vm_compute; reflexivity).
  split; [eexists; vm_compute; reflexivity |].
  split; [exact Hbase |].
  split; [vm_compute; reflexivity |].
  intros Hempty. rewrite Hempty, lookup_empty in Hbase. discriminate.
Qed.

(** C4 as amended: called with the lock free, [initialize_servos()]
    returns; it returns [True] exactly when the configuration is not
    empty and every configured device is constructed; in every case
    the registry holds exactly the servos configured before the first
    failing construction (all of them when none fails), each with the
    default state and with its output at the center duty cycle; the
    lock is released and the flag and the configuration are
    unchanged. *)
Theorem initialize_servos_registers_constructed_prefix hw c :
  _lock c = false ->
  exists ok c',
    initialize_servos hw c = Return ok c'
    /\ (ok = true <->
        config c <> [] /\ constructed_prefix hw (config c) = config c)
    /\ dom (_servos c') = ids_of (constructed_prefix hw (config c))
    /\ dom (_servo_states c') = ids_of (constructed_prefix hw (config c))
    /\ (forall servo_id state,
          _servo_states c' !! servo_id = Some state ->
          state = ServoState_default)
    /\ (forall servo_id servo,
          _servos c' !! servo_id = Some servo ->
          value servo = CENTER_DUTY_CYCLE)
    /\ _lock c' = false
    /\ _emergency_stop_active c' = _emergency_stop_active c
    /\ config c' = config c.
Proof.
  intros Hlock. do 2 eexists.
  split; [now apply initialize_servos_outcome |].
  cbn [_servos _servo_states _lock _emergency_stop_active config
       set_servos set_servo_states].
  split.
  { destruct (config c) as [| e rest] eqn:Ecfg.
    - split; [discriminate | intros [H _]; contradiction].
    - rewrite all_constructible_prefix. split.
      + intros H. split; [discriminate | exact H].
      + intros [_ H]. exact H. }
  split; [rewrite dom_register_all, dom_empty_L; apply (left_id_L ∅ (∪)) |].
  split; [rewrite dom_default_states, dom_empty_L; apply (left_id_L ∅ (∪)) |].
  split.
  { intros servo_id state H.
    apply default_states_lookup in H as [-> | H]; [reflexivity |].
    rewrite lookup_empty in H. discriminate. }
  split.
  { intros servo_id servo H.
    apply register_all_lookup in H as [E | H]; [exact E |].
    rewrite lookup_empty in H. discriminate. }
  repeat split. exact Hlock.
Qed.

Lemma initialize_servos_registers_constructed_prefix_witness :
  exists ok c',
    initialize_servos hw_pin27_broken (ServoController__init__ two_servos)
    = Return ok c'
    /\ (ok = true <->
        two_servos <> []
        /\ constructed_prefix hw_pin27_broken two_servos = two_servos)
    /\ dom (_servos c') = ids_of (constructed_prefix hw_pin27_broken two_servos)
    /\ dom (_servo_states c')
       = ids_of (constructed_prefix hw_pin27_broken two_servos)
    /\ (forall servo_id state,
          _servo_states c' !! servo_id = Some state ->
          state = ServoState_default)
    /\ (forall servo_id servo,
          _servos c' !! servo_id = Some servo ->
          value servo = CENTER_DUTY_CYCLE)
    /\ _lock c' = false
    /\ _emergency_stop_active c' = false
    /\ config c' = two_servos.
Proof.
  apply (initialize_servos_registers_constructed_prefix hw_pin27_broken
           (ServoController__init__ two_servos)).
  reflexivity.
Defined.

(** C8: a freshly constructed controller satisfies
    [speed == 0.0 <-> is_running == false] for every registered servo;
    [initialize_servos] registers every servo with speed 0.0 and
    [is_running] false; and each public operation (initialize,
    set_speed, stop, stop_all, emergency_stop, clear_emergency_stop,
    cleanup) started in a state where the equivalence holds leaves the
    controller in such a state, whatever the outcome of the call. *)
Theorem speed_zero_iff_not_running :
  (forall cfg, consistent (ServoController__init__ cfg))
  /\ (forall hw c servo_id state,
        _lock c = false ->
        _servo_states (after (initialize_servos hw c)) !! servo_id
          = Some state ->
        state = ServoState_default)
  /\ (forall hw op c, consistent c -> consistent (run_op hw op c)).
Proof.
  split; [| split].
  - intros cfg servo_id state H. cbn in H.
    rewrite lookup_empty in H. discriminate.
  - intros hw c servo_id state Hlock H.
    rewrite initialize_servos_outcome in H by assumption. cbn in H.
    apply default_states_lookup in H as [-> | H]; [reflexivity |].
    rewrite lookup_empty in H. discriminate.
  - intros hw op c. apply consistent_run_op.
Qed.

Lemma speed_zero_iff_not_running_witness :
  consistent
    (run_op hw_ok (OpSetSpeed "base" 0.5)
       (run_op hw_ok OpInitialize (ServoController__init__ two_servos))).
Proof.
  destruct speed_zero_iff_not_running as (Hinit & _ & Hstep).
  apply Hstep, Hstep, Hinit.
Defined.

(** C9: an operation other than [clear_emergency_stop] leaves a set
    flag set, whatever the outcome of the call. *)
Theorem flag_cleared_only_by_clear hw op c :
  op <> OpClearEmergencyStop ->
  _emergency_stop_active c = true ->
  _emergency_stop_active (run_op hw op c) = true.
Proof.
  intros Hop H. destruct op; cbn [run_op].
  - now apply flag_initialize_servos.
  - now apply flag_set_servo_speed.
  - now apply flag_set_servo_speed.
  - apply preserves_stop_all_servos;
      [apply flag_lock_blind | apply flag_set_servo_speed | exact H].
  - apply preserves_emergency_stop;
      [ apply flag_lock_blind | apply flag_set_servo_speed
      | intros c' _; reflexivity | exact H ].
  - contradiction.
  - apply preserves_cleanup;
      [ apply flag_lock_blind | apply flag_set_servo_speed
      | apply flag_cleanup_servos | exact H ].
Qed.

Lemma flag_cleared_only_by_clear_witness :
  _emergency_stop_active (run_op hw_ok OpInitialize halted) = true.
Proof.
  apply (flag_cleared_only_by_clear hw_ok OpInitialize halted).
  - discriminate.
  - vm_compute. reflexivity.
Defined.

End ControllerClaims.

(** ** More on the codec *)

Section CodecMore.

(** The speed computed from an accepted duty cycle, by branch. *)
Lemma duty_cycle_to_speed_value (d : Q) :
  MIN_DUTY_CYCLE <= d -> d <= MAX_DUTY_CYCLE ->
  exists s, duty_cycle_to_speed d = Ok s
            /\ -1 <= s /\ s <= 1
            /\ (d < CENTER_DUTY_CYCLE ->
                s == (d - CENTER_DUTY_CYCLE) * (10000 # 196))
            /\ (d == CENTER_DUTY_CYCLE -> s == 0)
            /\ (CENTER_DUTY_CYCLE < d ->
                s == (d - CENTER_DUTY_CYCLE) * (10000 # 304)).
Proof.
  intros Hlo Hhi.
  destruct (Q_dec d CENTER_DUTY_CYCLE) as [[L | G] | E].
  - rewrite duty_cycle_to_speed_below by assumption.
    eexists; split; [reflexivity |].
    assert ((d - CENTER_DUTY_CYCLE) / (CENTER_DUTY_CYCLE - MIN_DUTY_CYCLE)
            == (d - CENTER_DUTY_CYCLE) * (10000 # 196)) as Hs
      by (unfold CENTER_DUTY_CYCLE, MIN_DUTY_CYCLE; field).
    rewrite Hs. unfold CENTER_DUTY_CYCLE, MIN_DUTY_CYCLE in *.
    repeat split; intros; lra.
  - rewrite duty_cycle_to_speed_above by assumption.
    eexists; split; [reflexivity |].
    assert ((d - CENTER_DUTY_CYCLE) / (MAX_DUTY_CYCLE - CENTER_DUTY_CYCLE)
            == (d - CENTER_DUTY_CYCLE) * (10000 # 304)) as Hs
      by (unfold CENTER_DUTY_CYCLE, MAX_DUTY_CYCLE; field).
    rewrite Hs. unfold CENTER_DUTY_CYCLE, MAX_DUTY_CYCLE in *.
    repeat split; intros; lra.
  - rewrite duty_cycle_to_speed_center by assumption.
    eexists; split; [reflexivity |].
    repeat split; intros; lra.
Qed.

(** X1: every duty cycle in [MIN_DUTY_CYCLE, MAX_DUTY_CYCLE] converts to
    a speed in [-1, 1], and converting that speed back gives the duty
    cycle again. *)
Theorem speed_round_trip (d : Q) :
  MIN_DUTY_CYCLE <= d -> d <= MAX_DUTY_CYCLE ->
  exists s d', duty_cycle_to_speed d = Ok s
               /\ -1 <= s /\ s <= 1
               /\ speed_to_duty_cycle s = Ok d'
               /\ d' == d.
Proof.
  intros Hlo Hhi.
  destruct (duty_cycle_to_speed_value d Hlo Hhi)
    as (s & Es & Hs1 & Hs2 & Hbelow & Hcenter & Habove).
  exists s.
  destruct (Q_dec d CENTER_DUTY_CYCLE) as [[L | G] | E].
  - specialize (Hbelow L). unfold CENTER_DUTY_CYCLE in L, Hbelow.
    exists (CENTER_DUTY_CYCLE + s * (CENTER_DUTY_CYCLE - MIN_DUTY_CYCLE)).
    split; [exact Es |]. split; [exact Hs1 |]. split; [exact Hs2 |].
    split; [apply speed_to_duty_cycle_neg; lra |].
    unfold CENTER_DUTY_CYCLE, MIN_DUTY_CYCLE. lra.
  - specialize (Habove G). unfold CENTER_DUTY_CYCLE in G, Habove.
    exists (CENTER_DUTY_CYCLE + s * (MAX_DUTY_CYCLE - CENTER_DUTY_CYCLE)).
    split; [exact Es |]. split; [exact Hs1 |]. split; [exact Hs2 |].
    split; [apply speed_to_duty_cycle_pos; lra |].
    unfold CENTER_DUTY_CYCLE, MAX_DUTY_CYCLE. lra.
  - specialize (Hcenter E).
    exists CENTER_DUTY_CYCLE.
    split; [exact Es |]. split; [exact Hs1 |]. split; [exact Hs2 |].
    split; [now apply speed_to_duty_cycle_zero |].
    lra.
Qed.

Lemma speed_round_trip_witness :
  exists s d', duty_cycle_to_speed 0.06 = Ok s
               /\ -1 <= s /\ s <= 1
               /\ speed_to_duty_cycle s = Ok d'
               /\ d' == 0.06.
Proof.
  apply (speed_round_trip 0.06); vm_compute; discriminate.
Defined.

(** X2: on [MIN_DUTY_CYCLE, MAX_DUTY_CYCLE] the speed computed by
    [duty_cycle_to_speed] is non-decreasing in the duty cycle and lies
    in [-1, 1]. *)
Theorem duty_cycle_to_speed_monotone_bounded (d1 d2 : Q) :
  MIN_DUTY_CYCLE <= d1 -> d1 <= d2 -> d2 <= MAX_DUTY_CYCLE ->
  exists s1 s2, duty_cycle_to_speed d1 = Ok s1
                /\ duty_cycle_to_speed d2 = Ok s2
                /\ s1 <= s2
                /\ -1 <= s1 /\ s2 <= 1.
Proof.
  intros Hlo Hle Hhi.
  destruct (duty_cycle_to_speed_value d1)
    as (s1 & E1 & L1 & U1 & B1 & C1 & A1); [lra | lra |].
  destruct (duty_cycle_to_speed_value d2)
    as (s2 & E2 & L2 & U2 & B2 & C2 & A2); [lra | lra |].
  exists s1, s2. repeat split; try assumption.
  unfold CENTER_DUTY_CYCLE in *.
  destruct (Q_dec d1 0.0696) as [[Lt1 | Gt1] | Eq1];
    [ specialize (B1 Lt1) | specialize (A1 Gt1) | specialize (C1 Eq1) ];
    (destruct (Q_dec d2 0.0696) as [[Lt2 | Gt2] | Eq2];
      [ specialize (B2 Lt2) | specialize (A2 Gt2) | specialize (C2 Eq2) ]);
    lra.
Qed.

Lemma duty_cycle_to_speed_monotone_bounded_witness :
  exists s1 s2, duty_cycle_to_speed 0.06 = Ok s1
                /\ duty_cycle_to_speed 0.09 = Ok s2
                /\ s1 <= s2
                /\ -1 <= s1 /\ s2 <= 1.
Proof.
  apply (duty_cycle_to_speed_monotone_bounded 0.06 0.09);
    vm_compute; discriminate.
Defined.

(** X4: an accepted duty cycle converts to speed zero exactly when it is
    the center duty cycle, to a positive speed exactly when it is above
    the center and to a negative speed exactly when it is below. *)
Theorem duty_cycle_to_speed_sign (d : Q) :
  MIN_DUTY_CYCLE <= d -> d <= MAX_DUTY_CYCLE ->
  exists s, duty_cycle_to_speed d = Ok s
            /\ (s == 0 <-> d == CENTER_DUTY_CYCLE)
            /\ (0 < s <-> CENTER_DUTY_CYCLE < d)
            /\ (s < 0 <-> d < CENTER_DUTY_CYCLE).
Proof.
  intros Hlo Hhi.
  destruct (duty_cycle_to_speed_value d Hlo Hhi)
    as (s & Es & _ & _ & Hbelow & Hcenter & Habove).
  exists s. split; [exact Es |]. clear Es.
  unfold CENTER_DUTY_CYCLE in *.
  destruct (Q_dec d 0.0696) as [[L | G] | E];
    [ specialize (Hbelow L) | specialize (Habove G) | specialize (Hcenter E) ];
    repeat split; intros; lra.
Qed.

Lemma duty_cycle_to_speed_sign_witness :
  exists s, duty_cycle_to_speed 0.08 = Ok s
            /\ (s == 0 <-> 0.08 == CENTER_DUTY_CYCLE)
            /\ (0 < s <-> CENTER_DUTY_CYCLE < 0.08)
            /\ (s < 0 <-> 0.08 < CENTER_DUTY_CYCLE).
Proof.
  apply (duty_cycle_to_speed_sign 0.08); vm_compute; discriminate.
Defined.

End CodecMore.

(** ** [set_servo_speed] in full *)

Section SetSpeed.

(** What [set_servo_speed] does when it obtains the lock. *)
Lemma set_servo_speed_outcome hw servo_id v c :
  _lock c = false ->
  set_servo_speed hw servo_id v c
  = if _emergency_stop_active c then Return false c
    else match _servos c !! servo_id with
         | None => Return false c
         | Some servo =>
             match speed_to_duty_cycle v with
             | Err _ => Return false c
             | Ok duty_cycle =>
                 if pwm_write hw (dev_pin servo) duty_cycle then
                   match _servo_states c !! servo_id with
                   | None =>
                       Return false
                         (set_servos
                            (<[servo_id := with_value duty_cycle servo]>
                               (_servos c)) c)
                   | Some _ =>
                       Return true (speed_set servo_id v duty_cycle servo c)
                   end
                 else Return false c
             end
         end.
Proof.
  intros Hlock. unfold set_servo_speed, try_except, with_lock.
  rewrite Hlock. unfold bind at 1, get.
  cbn [_emergency_stop_active _servos set_lock].
  destruct (_emergency_stop_active c) eqn:Hflag.
  { cbn. now rewrite set_lock_release. }
  destruct (_servos c !! servo_id) as [servo |] eqn:Hservo.
  2:{ cbn. now rewrite set_lock_release. }
  unfold bind at 1.
  destruct (speed_to_duty_cycle v) as [duty_cycle | e]; cbn [lift].
  2:{ cbn. now rewrite set_lock_release. }
  cbn [ret]. unfold bind at 1, write_value. cbn [_servos set_lock].
  rewrite Hservo.
  destruct (pwm_write hw (dev_pin servo) duty_cycle).
  2:{ cbn. now rewrite set_lock_release. }
  unfold bind, update_state. cbn [_servo_states set_servos set_lock].
  destruct (_servo_states c !! servo_id) as [state |] eqn:Hstate.
  - cbn [_servo_states set_servo_states]. rewrite lookup_insert_eq.
    cbn [_servo_states set_servo_states ret]. rewrite insert_insert_eq.
    cbn. f_equal. unfold speed_set, with_value.
    destruct c; cbn in *; subst. reflexivity.
  - cbn. f_equal. unfold with_value.
    destruct c; cbn in *; subst. reflexivity.
Qed.

End SetSpeed.

Section SetSpeedProperties.

Lemma set_servo_speed_held hw servo_id v c :
  _lock c = true -> set_servo_speed hw servo_id v c = Blocked c.
Proof.
  intros Hlock. unfold set_servo_speed, try_except.
  now rewrite with_lock_held.
Qed.

(** X5: with the lock free and the flag clear, [set_servo_speed] on a
    registered servo, with a speed in [-1, 1] and a device that accepts
    the write, returns [True]; afterwards the status of the servo is the
    commanded speed with [is_running] true exactly when the speed is not
    zero, the device carries the duty cycle of that speed, and the lock,
    the flag and the configuration are as before. *)
Theorem set_servo_speed_succeeds hw servo_id v c servo state :
  _lock c = false ->
  _emergency_stop_active c = false ->
  _servos c !! servo_id = Some servo ->
  _servo_states c !! servo_id = Some state ->
  -1 <= v -> v <= 1 ->
  (forall duty_cycle, pwm_write hw (dev_pin servo) duty_cycle = true) ->
  exists duty_cycle c',
    speed_to_duty_cycle v = Ok duty_cycle
    /\ set_servo_speed hw servo_id v c = Return true c'
    /\ get_servo_status servo_id c'
       = Some {| speed := v; is_running := negb (Qeq_bool v 0.0) |}
    /\ _servos c' !! servo_id = Some (with_value duty_cycle servo)
    /\ _lock c' = false
    /\ _emergency_stop_active c' = false
    /\ config c' = config c.
Proof.
  intros Hlock Hflag Hservo Hstate Hlo Hhi Hwrite.
  destruct (speed_to_duty_cycle_bounded v Hlo Hhi) as (duty_cycle & E & _).
  exists duty_cycle, (speed_set servo_id v duty_cycle servo c).
  split; [exact E |]. split.
  - rewrite set_servo_speed_outcome by assumption.
    now rewrite Hflag, Hservo, E, Hwrite, Hstate.
  - unfold get_servo_status, speed_set.
    cbn [_servos _servo_states _lock _emergency_stop_active config
         set_servos set_servo_states].
    rewrite !lookup_insert_eq. repeat split; assumption.
Qed.

Lemma set_servo_speed_succeeds_witness :
  exists duty_cycle c',
    speed_to_duty_cycle (-0.25) = Ok duty_cycle
    /\ set_servo_speed hw_ok "gripper" (-0.25) base_running = Return true c'
    /\ get_servo_status "gripper" c'
       = Some {| speed := -0.25;
                 is_running := negb (Qeq_bool (-0.25) 0.0) |}
    /\ _servos c' !! "gripper"
       = Some (with_value duty_cycle (new_servo {| name := "Gripper"; pin := 27 |}))
    /\ _lock c' = false
    /\ _emergency_stop_active c' = false
    /\ config c' = config base_running.
Proof.
  apply (set_servo_speed_succeeds hw_ok "gripper" (-0.25) base_running
           (new_servo {| name := "Gripper"; pin := 27 |})
           ServoState_default);
    try (vm_compute; reflexivity); vm_compute; discriminate.
Defined.

(** X6: with the lock free and a state object present for every device,
    [set_servo_speed] always returns.  It returns [True] exactly when
    the flag is clear, the servo is registered, the speed is accepted by
    the codec and the device accepts the write; when it returns [False]
    the controller is exactly as before. *)
Theorem set_servo_speed_all_or_nothing hw servo_id v c :
  _lock c = false ->
  (is_Some (_servos c !! servo_id) -> is_Some (_servo_states c !! servo_id)) ->
  exists ok c',
    set_servo_speed hw servo_id v c = Return ok c'
    /\ (ok = false -> c' = c)
    /\ (ok = true <->
        _emergency_stop_active c = false
        /\ exists servo duty_cycle,
             _servos c !! servo_id = Some servo
             /\ speed_to_duty_cycle v = Ok duty_cycle
             /\ pwm_write hw (dev_pin servo) duty_cycle = true).
Proof.
  intros Hlock Hsync.
  rewrite set_servo_speed_outcome by assumption.
  destruct (_emergency_stop_active c) eqn:Hflag.
  { exists false, c. repeat split; try discriminate.
    intros [H _]. discriminate. }
  destruct (_servos c !! servo_id) as [servo |] eqn:Hservo.
  2:{ exists false, c. repeat split; try discriminate.
      intros (_ & servo & duty_cycle & H & _). discriminate. }
  destruct (Hsync (ex_intro _ servo eq_refl)) as [state Hstate].
  rewrite Hstate.
  destruct (speed_to_duty_cycle v) as [duty_cycle | e] eqn:E.
  2:{ exists false, c. repeat split; try discriminate.
      intros (_ & servo' & duty_cycle & _ & H & _). discriminate. }
  destruct (pwm_write hw (dev_pin servo) duty_cycle) eqn:Hwrite.
  - exists true, (speed_set servo_id v duty_cycle servo c).
    repeat split; try discriminate.
    exists servo, duty_cycle. repeat split; assumption.
  - exists false, c. repeat split; try discriminate.
    intros (_ & servo' & duty_cycle' & Hs & Hd & Hw).
    injection Hs as <-. injection Hd as <-. congruence.
Qed.

Lemma set_servo_speed_all_or_nothing_witness :
  exists ok c',
    set_servo_speed hw_write_broken "base" 0.5 initialized = Return ok c'
    /\ (ok = false -> c' = initialized)
    /\ (ok = true <->
        _emergency_stop_active initialized = false
        /\ exists servo duty_cycle,
             _servos initialized !! "base" = Some servo
             /\ speed_to_duty_cycle 0.5 = Ok duty_cycle
             /\ pwm_write hw_write_broken (dev_pin servo) duty_cycle = true).
Proof.
  apply (set_servo_speed_all_or_nothing hw_write_broken "base" 0.5
           initialized).
  - vm_compute. reflexivity.
  - intros _. vm_compute. eexists. reflexivity.
Defined.

(** X7: whatever its outcome, [set_servo_speed] on one servo leaves the
    device and the state of every other servo, the flag and the
    configuration as they were. *)
Theorem set_servo_speed_frame hw servo_id v c other :
  other <> servo_id ->
  let c' := after (set_servo_speed hw servo_id v c) in
  _servos c' !! other = _servos c !! other
  /\ _servo_states c' !! other = _servo_states c !! other
  /\ get_servo_status other c' = get_servo_status other c
  /\ _emergency_stop_active c' = _emergency_stop_active c
  /\ config c' = config c.
Proof.
  intros Hne. cbv zeta.
  assert (forall c', c' = after (set_servo_speed hw servo_id v c) ->
            _servos c' !! other = _servos c !! other
            /\ _servo_states c' !! other = _servo_states c !! other
            /\ _emergency_stop_active c' = _emergency_stop_active c
            /\ config c' = config c) as H.
  { intros c' ->.
    destruct (_lock c) eqn:Hlock.
    { rewrite set_servo_speed_held by assumption. repeat split. }
    rewrite set_servo_speed_outcome by assumption.
    destruct (_emergency_stop_active c) eqn:Hflag;
      [cbn [after]; repeat split; exact Hflag |].
    destruct (_servos c !! servo_id) as [servo |];
      [| cbn [after]; repeat split; exact Hflag].
    destruct (speed_to_duty_cycle v) as [duty_cycle | e];
      [| cbn [after]; repeat split; exact Hflag].
    destruct (pwm_write hw (dev_pin servo) duty_cycle);
      [| cbn [after]; repeat split; exact Hflag].
    destruct (_servo_states c !! servo_id) as [state |];
      unfold speed_set;
      cbn [after _servos _servo_states _emergency_stop_active config
           set_servos set_servo_states];
      rewrite ?lookup_insert_ne by congruence;
      repeat split; exact Hflag. }
  destruct (H _ eq_refl) as (H1 & H2 & H3 & H4).
  repeat split; try assumption.
  unfold get_servo_status. now rewrite H2.
Qed.

Lemma set_servo_speed_frame_witness :
  let c' := after (set_servo_speed hw_ok "base" 0.5 initialized) in
  _servos c' !! "gripper" = _servos initialized !! "gripper"
  /\ _servo_states c' !! "gripper" = _servo_states initialized !! "gripper"
  /\ get_servo_status "gripper" c' = get_servo_status "gripper" initialized
  /\ _emergency_stop_active c' = _emergency_stop_active initialized
  /\ config c' = config initialized.
Proof.
  apply (set_servo_speed_frame hw_ok "base" 0.5 initialized "gripper").
  discriminate.
Defined.

(** X8: with the lock free and the flag clear, [stop_servo] on a
    registered servo whose device accepts the write returns [True] and
    leaves the servo with speed 0.0, [is_running] false and its output at
    the center duty cycle. *)
Theorem stop_servo_stops hw servo_id c servo state :
  _lock c = false ->
  _emergency_stop_active c = false ->
  _servos c !! servo_id = Some servo ->
  _servo_states c !! servo_id = Some state ->
  pwm_write hw (dev_pin servo) CENTER_DUTY_CYCLE = true ->
  exists c',
    stop_servo hw servo_id c = Return true c'
    /\ get_servo_status servo_id c'
       = Some {| speed := 0.0; is_running := false |}
    /\ _servos c' !! servo_id = Some (with_value CENTER_DUTY_CYCLE servo)
    /\ _lock c' = false.
Proof.
  intros Hlock Hflag Hservo Hstate Hwrite.
  exists (speed_set servo_id 0.0 CENTER_DUTY_CYCLE servo c).
  split.
  - unfold stop_servo. rewrite set_servo_speed_outcome by assumption.
    rewrite Hflag, Hservo.
    rewrite (speed_to_duty_cycle_zero 0.0) by reflexivity.
    cbv beta iota. now rewrite Hwrite, Hstate.
  - unfold get_servo_status, speed_set.
    cbn [_servos _servo_states _lock set_servos set_servo_states].
    rewrite !lookup_insert_eq. repeat split. exact Hlock.
Qed.

Lemma stop_servo_stops_witness :
  exists c',
    stop_servo hw_ok "base" base_running = Return true c'
    /\ get_servo_status "base" c'
       = Some {| speed := 0.0; is_running := false |}
    /\ _servos c' !! "base"
       = Some (with_value CENTER_DUTY_CYCLE
                 (with_value 0.08480000000
                    (new_servo {| name := "Base"; pin := 17 |})))
    /\ _lock c' = false.
Proof.
  apply (stop_servo_stops hw_ok "base" base_running
           (with_value 0.08480000000
              (new_servo {| name := "Base"; pin := 17 |}))
           {| speed := 0.5; is_running := true |});
    vm_compute; reflexivity.
Defined.

End SetSpeedProperties.

(** ** Invariants of the registry *)

Section RegistryInvariants.

(** A property kept by the building blocks is kept by every public
    operation. *)
Lemma preserves_run_op (P : ServoController -> Prop) :
  lock_blind P ->
  (forall hw servo_id v, preserves P (set_servo_speed hw servo_id v)) ->
  (forall hw, preserves P (initialize_servos hw)) ->
  (forall b c, P c -> P (set_emergency_stop_active b c)) ->
  preserves P _cleanup_servos ->
  forall hw op c, P c -> P (run_op hw op c).
Proof.
  intros Hlock Hset Hinit Hflag Hclean hw op c.
  destruct op; cbn [run_op].
  - apply Hinit.
  - apply Hset.
  - apply Hset.
  - now apply preserves_stop_all_servos.
  - apply preserves_emergency_stop; auto.
  - apply preserves_with_lock; [exact Hlock |].
    apply preserves_bind; [| intros _; apply preserves_ret].
    apply preserves_modify. intros c'. apply Hflag.
  - now apply preserves_cleanup.
Qed.

Lemma initialize_servos_held hw c :
  _lock c = true -> initialize_servos hw c = Blocked c.
Proof.
  intros Hlock. unfold initialize_servos, try_except.
  now rewrite with_lock_held.
Qed.

(** The states [set_servo_speed] can leave. *)
Lemma set_servo_speed_after hw servo_id v c :
  after (set_servo_speed hw servo_id v c) = c
  \/ (exists servo duty_cycle,
        _servos c !! servo_id = Some servo
        /\ _servo_states c !! servo_id = None
        /\ after (set_servo_speed hw servo_id v c)
           = set_servos
               (<[servo_id := with_value duty_cycle servo]> (_servos c)) c)
  \/ (exists servo duty_cycle state,
        _servos c !! servo_id = Some servo
        /\ _servo_states c !! servo_id = Some state
        /\ speed_to_duty_cycle v = Ok duty_cycle
        /\ after (set_servo_speed hw servo_id v c)
           = speed_set servo_id v duty_cycle servo c).
Proof.
  destruct (_lock c) eqn:Hlock.
  { left. now rewrite set_servo_speed_held. }
  rewrite set_servo_speed_outcome by assumption.
  destruct (_emergency_stop_active c); [now left |].
  destruct (_servos c !! servo_id) as [servo |] eqn:Hservo; [| now left].
  destruct (speed_to_duty_cycle v) as [duty_cycle | e] eqn:E; [| now left].
  destruct (pwm_write hw (dev_pin servo) duty_cycle); [| now left].
  destruct (_servo_states c !! servo_id) as [state |] eqn:Hstate.
  - right. right. exists servo, duty_cycle, state. repeat split.
  - right. left. exists servo, duty_cycle. repeat split.
Qed.

Lemma speed_to_duty_cycle_ok_range v duty_cycle :
  speed_to_duty_cycle v = Ok duty_cycle -> -1 <= v /\ v <= 1.
Proof.
  intros E.
  destruct (speed_to_duty_cycle_total v) as [(Hlo & Hhi & _) | (_ & E')].
  - now split.
  - rewrite E' in E. discriminate.
Qed.

Lemma register_all_value entries servo_id servo :
  register_all entries ∅ !! servo_id = Some servo ->
  value servo = CENTER_DUTY_CYCLE.
Proof.
  intros H. apply register_all_lookup in H as [E | H]; [exact E |].
  rewrite lookup_empty in H. discriminate.
Qed.

Lemma default_states_value entries servo_id state :
  default_states entries ∅ !! servo_id = Some state ->
  state = ServoState_default.
Proof.
  intros H. apply default_states_lookup in H as [E | H]; [exact E |].
  rewrite lookup_empty in H. discriminate.
Qed.

Lemma is_Some_insert_present {V} (m : gmap string V) i j (x y : V) :
  m !! i = Some y -> is_Some (<[i := x]> m !! j) <-> is_Some (m !! j).
Proof.
  intros Hi. rewrite lookup_insert_is_Some. split.
  - intros [<- | [_ H]]; [now exists y | exact H].
  - intros H. destruct (decide (i = j)) as [E | Hne]; [now left | now right].
Qed.

(** *** The two dictionaries have the same keys *)

Lemma sync_set_servo_speed hw servo_id v :
  preserves registry_sync (set_servo_speed hw servo_id v).
Proof.
  intros c H.
  destruct (set_servo_speed_after hw servo_id v c)
    as [-> | [(servo & duty & Hs & Hn & ->) | (servo & duty & st & Hs & Hst & _ & ->)]].
  - exact H.
  - intros j. cbn [_servos _servo_states set_servos].
    rewrite (is_Some_insert_present _ _ _ _ _ Hs). apply H.
  - intros j. unfold speed_set.
    cbn [_servos _servo_states set_servos set_servo_states].
    rewrite (is_Some_insert_present _ _ _ _ _ Hs).
    rewrite (is_Some_insert_present _ _ _ _ _ Hst). apply H.
Qed.

Lemma sync_initialize_servos hw : preserves registry_sync (initialize_servos hw).
Proof.
  intros c H. destruct (_lock c) eqn:Hlock.
  { now rewrite initialize_servos_held. }
  rewrite initialize_servos_outcome by assumption.
  intros j. cbn [after _servos _servo_states set_servos set_servo_states].
  rewrite <- !elem_of_dom, dom_register_all, dom_default_states.
  now rewrite !dom_empty_L.
Qed.

Lemma sync_cleanup_servos : preserves registry_sync _cleanup_servos.
Proof.
  intros c _ j. cbn.
  split; intros [x Hx]; rewrite lookup_empty in Hx; discriminate.
Qed.

(** *** Recorded speeds are in range *)

Lemma range_set_servo_speed hw servo_id v :
  preserves speeds_in_range (set_servo_speed hw servo_id v).
Proof.
  intros c H.
  destruct (set_servo_speed_after hw servo_id v c)
    as [-> | [(servo & duty & Hs & Hn & ->) | (servo & duty & st & Hs & Hst & E & ->)]].
  - exact H.
  - exact H.
  - intros j state. unfold speed_set. cbn [_servo_states set_servo_states].
    destruct (decide (servo_id = j)) as [-> | Hne].
    + rewrite lookup_insert_eq. intros [= <-]. cbn.
      now apply speed_to_duty_cycle_ok_range in E.
    + rewrite lookup_insert_ne by assumption. apply H.
Qed.

Lemma range_initialize_servos hw :
  preserves speeds_in_range (initialize_servos hw).
Proof.
  intros c H. destruct (_lock c) eqn:Hlock.
  { now rewrite initialize_servos_held. }
  rewrite initialize_servos_outcome by assumption.
  intros j state. cbn [after _servo_states set_servo_states].
  intros Hj. apply default_states_value in Hj as ->.
  split; vm_compute; discriminate.
Qed.

Lemma range_cleanup_servos : preserves speeds_in_range _cleanup_servos.
Proof.
  intros c _ j state. cbn. rewrite lookup_empty. discriminate.
Qed.

(** *** The output of each device is the duty cycle of the recorded
    speed *)

Lemma output_set_servo_speed hw servo_id v :
  preserves output_matches_speed (set_servo_speed hw servo_id v).
Proof.
  intros c H.
  destruct (set_servo_speed_after hw servo_id v c)
    as [-> | [(servo & duty & Hs & Hn & ->) | (servo & duty & st & Hs & Hst & E & ->)]].
  - exact H.
  - intros j dev state. cbn [_servos _servo_states set_servos].
    destruct (decide (servo_id = j)) as [-> | Hne].
    + intros _ Hj. rewrite Hn in Hj. discriminate.
    + rewrite lookup_insert_ne by assumption. apply H.
  - intros j dev state. unfold speed_set.
    cbn [_servos _servo_states set_servos set_servo_states].
    destruct (decide (servo_id = j)) as [-> | Hne].
    + rewrite !lookup_insert_eq. intros [= <-] [= <-]. exact E.
    + rewrite !lookup_insert_ne by assumption. apply H.
Qed.

Lemma output_initialize_servos hw :
  preserves output_matches_speed (initialize_servos hw).
Proof.
  intros c H. destruct (_lock c) eqn:Hlock.
  { now rewrite initialize_servos_held. }
  rewrite initialize_servos_outcome by assumption.
  intros j dev state.
  cbn [after _servos _servo_states set_servos set_servo_states].
  intros Hdev Hstate.
  apply register_all_value in Hdev. apply default_states_value in Hstate.
  subst state. rewrite Hdev. reflexivity.
Qed.

Lemma output_cleanup_servos : preserves output_matches_speed _cleanup_servos.
Proof.
  intros c _ j dev state. cbn. rewrite lookup_empty. discriminate.
Qed.

(** X9: a new controller has a state object for exactly the servos that
    have a device, and every public operation keeps it so, whatever its
    outcome. *)
Theorem registry_sync_invariant :
  (forall cfg, registry_sync (ServoController__init__ cfg))
  /\ (forall hw op c, registry_sync c -> registry_sync (run_op hw op c)).
Proof.
  split.
  - intros cfg j. cbn.
    split; intros [x Hx]; rewrite lookup_empty in Hx; discriminate.
  - apply preserves_run_op.
    + intros b c H. exact H.
    + apply sync_set_servo_speed.
    + apply sync_initialize_servos.
    + intros b c H. exact H.
    + apply sync_cleanup_servos.
Qed.

Lemma registry_sync_invariant_witness :
  registry_sync
    (run_op hw_write_broken (OpSetSpeed "base" 0.5)
       (run_op hw_pin27_broken OpInitialize
          (ServoController__init__ two_servos))).
Proof.
  destruct registry_sync_invariant as [Hinit Hstep].
  apply Hstep, Hstep, Hinit.
Defined.

(** X10: every speed recorded in the controller lies in [-1, 1]: it
    holds for a new controller and every public operation keeps it,
    whatever its outcome. *)
Theorem speeds_in_range_invariant :
  (forall cfg, speeds_in_range (ServoController__init__ cfg))
  /\ (forall hw op c, speeds_in_range c -> speeds_in_range (run_op hw op c)).
Proof.
  split.
  - intros cfg j state. cbn. rewrite lookup_empty. discriminate.
  - apply preserves_run_op.
    + intros b c H. exact H.
    + apply range_set_servo_speed.
    + apply range_initialize_servos.
    + intros b c H. exact H.
    + apply range_cleanup_servos.
Qed.

Lemma speeds_in_range_invariant_witness :
  speeds_in_range
    (run_op hw_ok (OpSetSpeed "base" 1.5)
       (run_op hw_ok OpInitialize (ServoController__init__ two_servos))).
Proof.
  destruct speeds_in_range_invariant as [Hinit Hstep].
  apply Hstep, Hstep, Hinit.
Defined.

(** X11: for every registered servo the duty cycle last written to its
    device is the one [speed_to_duty_cycle] gives for its recorded speed
    (so it lies in [MIN_DUTY_CYCLE, MAX_DUTY_CYCLE]): it holds for a new
    controller and every public operation keeps it, whatever its
    outcome. *)
Theorem output_matches_speed_invariant :
  (forall cfg, output_matches_speed (ServoController__init__ cfg))
  /\ (forall hw op c,
        output_matches_speed c -> output_matches_speed (run_op hw op c))
  /\ (forall c servo_id servo state,
        output_matches_speed c ->
        _servos c !! servo_id = Some servo ->
        _servo_states c !! servo_id = Some state ->
        MIN_DUTY_CYCLE <= value servo /\ value servo <= MAX_DUTY_CYCLE).
Proof.
  split; [| split].
  - intros cfg j dev state. cbn. rewrite lookup_empty. discriminate.
  - apply preserves_run_op.
    + intros b c H. exact H.
    + apply output_set_servo_speed.
    + apply output_initialize_servos.
    + intros b c H. exact H.
    + apply output_cleanup_servos.
  - intros c servo_id servo state H Hdev Hstate.
    specialize (H _ _ _ Hdev Hstate).
    destruct (speed_to_duty_cycle_ok_range _ _ H) as [Hlo Hhi].
    destruct (speed_to_duty_cycle_bounded _ Hlo Hhi) as (d & E & B1 & B2).
    rewrite H in E. injection E as <-. now split.
Qed.

Lemma output_matches_speed_invariant_witness :
  output_matches_speed
    (run_op hw_ok (OpSetSpeed "base" 0.5)
       (run_op hw_ok OpInitialize (ServoController__init__ two_servos))).
Proof.
  destruct output_matches_speed_invariant as (Hinit & Hstep & _).
  apply Hstep, Hstep, Hinit.
Defined.

End RegistryInvariants.

(** ** The lock and the outcomes of the operations *)

Section LockDiscipline.

Lemma with_lock_return {A} (body : M A) c a c' :
  with_lock body c = Return a c' -> _lock c' = false.
Proof.
  unfold with_lock. destruct (_lock c); [discriminate |].
  destruct (body (set_lock true c)); intros [= <- <-] || discriminate.
  reflexivity.
Qed.

Lemma with_lock_raise {A} (body : M A) c e c' :
  with_lock body c = Raise e c' -> _lock c' = false.
Proof.
  unfold with_lock. destruct (_lock c); [discriminate |].
  destruct (body (set_lock true c)); intros [= <- <-] || discriminate.
  reflexivity.
Qed.

(** [try: with self._lock: ...  except: return b]. *)
Lemma guarded_return {A} (body : M A) (b : A) c a c' :
  try_except (with_lock body) (fun _ => ret b) c = Return a c' ->
  _lock c' = false.
Proof.
  unfold try_except.
  destruct (with_lock body c) as [a0 c0 | e c0 | c0] eqn:E.
  - intros [= <- <-]. eapply with_lock_return, E.
  - cbn. intros [= <- <-]. eapply with_lock_raise, E.
  - discriminate.
Qed.

Lemma guarded_no_raise {A} (body : M A) (b : A) c e c' :
  try_except body (fun _ => ret b) c <> Raise e c'.
Proof.
  unfold try_except. destruct (body c); discriminate.
Qed.

Lemma guarded_held {A} (body : M A) (handler : PyError -> M A) c :
  _lock c = true -> try_except (with_lock body) handler c = Blocked c.
Proof.
  intros H. unfold try_except. now rewrite with_lock_held.
Qed.

Lemma outcome_of_return {A} (r : result A) c' :
  outcome_of r = Return tt c' -> exists a, r = Return a c'.
Proof.
  destruct r; cbn; intros [= <-] || discriminate. now eexists.
Qed.

Lemma outcome_of_raise {A} (r : result A) e c' :
  outcome_of r = Raise e c' -> r = Raise e c'.
Proof.
  destruct r; cbn; intros [= <- <-] || discriminate. reflexivity.
Qed.

(** X12: whenever a public operation returns, the lock is free again
    (also when the body of the operation raised and the handler turned
    the exception into [False]). *)
Theorem returned_operation_releases_lock hw op c c' :
  call hw op c = Return tt c' -> _lock c' = false.
Proof.
  destruct op; cbn [call]; intros H;
    apply outcome_of_return in H as [a H].
  - eapply guarded_return, H.
  - eapply guarded_return, H.
  - eapply guarded_return, H.
  - eapply guarded_return, H.
  - eapply guarded_return, H.
  - eapply with_lock_return, H.
  - unfold cleanup, bind in H.
    destruct (stop_all_servos hw c) as [b c0 | e c0 | c0] eqn:E;
      [| discriminate | discriminate].
    apply guarded_return in E. cbn in H. injection H as _ <-. exact E.
Qed.

Lemma returned_operation_releases_lock_witness :
  _lock (speed_set "base" 0.5 0.08480000000
           (new_servo {| name := "Base"; pin := 17 |}) initialized) = false.
Proof.
  apply (returned_operation_releases_lock hw_ok (OpSetSpeed "base" 0.5)
           initialized).
  vm_compute. reflexivity.
Defined.

(** X13: no exception escapes from [initialize_servos],
    [set_servo_speed], [stop_servo], [stop_all_servos], [emergency_stop]
    or [clear_emergency_stop], whatever the controller, the arguments
    and the behaviour of the hardware. *)
Theorem no_exception_escapes hw op c e c' :
  op <> OpCleanup -> call hw op c <> Raise e c'.
Proof.
  intros Hop H. destruct op; cbn [call] in H; apply outcome_of_raise in H.
  - eapply guarded_no_raise, H.
  - eapply guarded_no_raise, H.
  - eapply guarded_no_raise, H.
  - eapply guarded_no_raise, H.
  - eapply guarded_no_raise, H.
  - unfold clear_emergency_stop, with_lock in H.
    destruct (_lock c); discriminate.
  - contradiction.
Qed.

Lemma no_exception_escapes_witness :
  call hw_write_broken (OpSetSpeed "base" 1.5) initialized
  <> Raise ValueError initialized.
Proof.
  apply (no_exception_escapes hw_write_broken (OpSetSpeed "base" 1.5)
           initialized ValueError initialized).
  discriminate.
Defined.

(** Every public operation starts by acquiring the lock. *)
Lemma call_held hw op c : _lock c = true -> call hw op c = Blocked c.
Proof.
  intros Hlock. destruct op; cbn [call].
  - unfold initialize_servos. now rewrite guarded_held.
  - now rewrite set_servo_speed_held.
  - unfold stop_servo. now rewrite set_servo_speed_held.
  - unfold stop_all_servos. now rewrite guarded_held.
  - unfold emergency_stop. now rewrite guarded_held.
  - unfold clear_emergency_stop. now rewrite with_lock_held.
  - unfold cleanup, bind, stop_all_servos. now rewrite guarded_held.
Qed.

(** X14: after [emergency_stop()] has been called with the lock free,
    every later public operation, [clear_emergency_stop] included, waits
    for the lock forever and changes nothing. *)
Theorem controller_frozen_after_emergency_stop hw c hw' op :
  _lock c = false ->
  call hw' op (after (emergency_stop hw c))
  = Blocked (after (emergency_stop hw c)).
Proof.
  intros Hlock. apply call_held.
  now rewrite emergency_stop_outcome, Hlock.
Qed.

Lemma controller_frozen_after_emergency_stop_witness :
  call hw_ok OpClearEmergencyStop (after (emergency_stop hw_ok base_running))
  = Blocked (after (emergency_stop hw_ok base_running)).
Proof.
  apply (controller_frozen_after_emergency_stop hw_ok base_running hw_ok
           OpClearEmergencyStop).
  vm_compute. reflexivity.
Defined.

Lemma clear_emergency_stop_outcome c :
  _lock c = false ->
  clear_emergency_stop c = Return true (set_emergency_stop_active false c).
Proof.
  intros Hlock. unfold clear_emergency_stop, with_lock. rewrite Hlock.
  cbn. f_equal. destruct c; cbn in *; subst. reflexivity.
Qed.

(** X15: called with the lock free, [clear_emergency_stop] returns
    [True], clears the flag and changes nothing else (no servo is
    restarted); calling it a second time has the same outcome. *)
Theorem clear_emergency_stop_idempotent c :
  _lock c = false ->
  clear_emergency_stop c = Return true (set_emergency_stop_active false c)
  /\ clear_emergency_stop (after (clear_emergency_stop c))
     = clear_emergency_stop c.
Proof.
  intros Hlock. rewrite (clear_emergency_stop_outcome c) by assumption.
  split; [reflexivity |]. cbn [after].
  now rewrite clear_emergency_stop_outcome.
Qed.

Lemma clear_emergency_stop_idempotent_witness :
  clear_emergency_stop halted
  = Return true (set_emergency_stop_active false halted)
  /\ clear_emergency_stop (after (clear_emergency_stop halted))
     = clear_emergency_stop halted.
Proof.
  apply (clear_emergency_stop_idempotent halted). vm_compute. reflexivity.
Defined.

(** X17: called with the lock free, [stop_all_servos] returns [True]
    without any effect when no servo is registered; when at least one
    is, it never returns (its first [stop_servo] waits for the lock the
    loop holds) and no servo is stopped. *)
Theorem stop_all_servos_returns_only_when_empty hw c :
  _lock c = false ->
  (_servos c = ∅ -> stop_all_servos hw c = Return true c)
  /\ (_servos c <> ∅ -> stop_all_servos hw c = Blocked (set_lock true c)).
Proof.
  intros Hlock. rewrite stop_all_servos_outcome by assumption.
  destruct (map_to_list (_servos c)) as [| e rest] eqn:E.
  - apply map_to_list_empty_iff in E. split; [reflexivity | contradiction].
  - split; [| reflexivity].
    intros Hempty. rewrite Hempty, map_to_list_empty in E. discriminate.
Qed.

Lemma stop_all_servos_returns_only_when_empty_witness :
  (_servos base_running = ∅ ->
   stop_all_servos hw_ok base_running = Return true base_running)
  /\ (_servos base_running <> ∅ ->
      stop_all_servos hw_ok base_running
      = Blocked (set_lock true base_running)).
Proof.
  apply (stop_all_servos_returns_only_when_empty hw_ok base_running).
  vm_compute. reflexivity.
Defined.

Lemma cleanup_outcome hw c :
  _lock c = false ->
  cleanup hw c
  = match map_to_list (_servos c) with
    | [] => Return tt (set_servo_states ∅ (set_servos ∅ c))
    | _ :: _ => Blocked (set_lock true c)
    end.
Proof.
  intros Hlock. unfold cleanup, bind at 1.
  rewrite stop_all_servos_outcome by assumption.
  destruct (map_to_list (_servos c)); reflexivity.
Qed.

(** X18: called with the lock free, [cleanup] returns with both
    dictionaries empty when no servo is registered; when at least one is,
    it never returns and the registry is not cleared. *)
Theorem cleanup_returns_only_when_empty hw c :
  _lock c = false ->
  (_servos c = ∅ ->
   cleanup hw c = Return tt (set_servo_states ∅ (set_servos ∅ c)))
  /\ (_servos c <> ∅ ->
      cleanup hw c = Blocked (set_lock true c)
      /\ _servos (after (cleanup hw c)) = _servos c).
Proof.
  intros Hlock. rewrite cleanup_outcome by assumption.
  destruct (map_to_list (_servos c)) as [| e rest] eqn:E.
  - apply map_to_list_empty_iff in E. split; [reflexivity | contradiction].
  - split; [| intros _; split; reflexivity].
    intros Hempty. rewrite Hempty, map_to_list_empty in E. discriminate.
Qed.

Lemma cleanup_returns_only_when_empty_witness :
  (_servos base_running = ∅ ->
   cleanup hw_ok base_running
   = Return tt (set_servo_states ∅ (set_servos ∅ base_running)))
  /\ (_servos base_running <> ∅ ->
      cleanup hw_ok base_running = Blocked (set_lock true base_running)
      /\ _servos (after (cleanup hw_ok base_running)) = _servos base_running).
Proof.
  apply (cleanup_returns_only_when_empty hw_ok base_running).
  vm_compute. reflexivity.
Defined.

End LockDiscipline.

(** ** Initialization, continued *)

Section InitializeMore.

(** X19: the outcome of [initialize_servos] does not depend on what was
    registered before: with the lock free it is the same for any two
    controllers that differ only in their dictionaries; in particular
    initializing a second time gives the outcome of the first. *)
Theorem initialize_servos_discards_registry hw c servos states :
  _lock c = false ->
  initialize_servos hw (set_servo_states states (set_servos servos c))
  = initialize_servos hw c
  /\ initialize_servos hw (after (initialize_servos hw c))
     = initialize_servos hw c.
Proof.
  intros Hlock. split.
  - rewrite !initialize_servos_outcome by exact Hlock. reflexivity.
  - rewrite (initialize_servos_outcome hw c) by exact Hlock. cbn [after].
    rewrite initialize_servos_outcome by exact Hlock. reflexivity.
Qed.

Lemma initialize_servos_discards_registry_witness :
  initialize_servos hw_ok
    (set_servo_states (_servo_states base_running)
       (set_servos (_servos base_running)
          (ServoController__init__ two_servos)))
  = initialize_servos hw_ok (ServoController__init__ two_servos)
  /\ initialize_servos hw_ok
       (after (initialize_servos hw_ok (ServoController__init__ two_servos)))
     = initialize_servos hw_ok (ServoController__init__ two_servos).
Proof.
  apply (initialize_servos_discards_registry hw_ok
           (ServoController__init__ two_servos)).
  reflexivity.
Defined.

Lemma constructed_prefix_elem hw servo_configs servo_id servo_config :
  (servo_id, servo_config) ∈ constructed_prefix hw servo_configs ->
  (servo_id, servo_config) ∈ servo_configs
  /\ pwm_construct hw (pin servo_config) = true.
Proof.
  induction servo_configs as [| [id sc] rest IH]; cbn.
  - intros H. now apply elem_of_nil in H.
  - destruct (pwm_construct hw (pin sc)) eqn:E.
    + rewrite !elem_of_cons. intros [[= -> ->] | H].
      * split; [now left | exact E].
      * destruct (IH H) as [H1 H2]. split; [now right | exact H2].
    + intros H. now apply elem_of_nil in H.
Qed.

Lemma register_all_origin entries servos servo_id servo :
  register_all entries servos !! servo_id = Some servo ->
  (exists servo_config,
     (servo_id, servo_config) ∈ entries /\ servo = new_servo servo_config)
  \/ servos !! servo_id = Some servo.
Proof.
  revert servos. unfold register_all.
  induction entries as [| [id sc] rest IH]; intros servos; cbn.
  - now right.
  - intros H. destruct (IH _ H) as [(sc' & Hin & ->) | H'].
    + left. exists sc'. split; [apply elem_of_cons; now right | reflexivity].
    + destruct (decide (id = servo_id)) as [-> | Hne].
      * rewrite lookup_insert_eq in H'. injection H' as <-.
        left. exists sc. split; [apply elem_of_cons; now left | reflexivity].
      * rewrite lookup_insert_ne in H' by assumption. now right.
Qed.

(** X20: after [initialize_servos] called with the lock free, every
    device in the registry was constructed successfully for an entry of
    the configuration with the same identifier: it is on the pin of that
    entry, at [PWM_FREQUENCY], with the center duty cycle as output. *)
Theorem initialize_servos_devices hw c servo_id servo :
  _lock c = false ->
  _servos (after (initialize_servos hw c)) !! servo_id = Some servo ->
  exists servo_config,
    (servo_id, servo_config) ∈ config c
    /\ pwm_construct hw (pin servo_config) = true
    /\ dev_pin servo = pin servo_config
    /\ dev_frequency servo = PWM_FREQUENCY
    /\ value servo = CENTER_DUTY_CYCLE.
Proof.
  intros Hlock H.
  rewrite initialize_servos_outcome in H by assumption.
  cbn [after _servos set_servos set_servo_states] in H.
  apply register_all_origin in H as [(sc & Hin & ->) | H].
  - apply constructed_prefix_elem in Hin as [Hin Hok].
    exists sc. repeat split; assumption.
  - rewrite lookup_empty in H. discriminate.
Qed.

Lemma initialize_servos_devices_witness :
  exists servo_config,
    (("base" : string), servo_config) ∈ config (ServoController__init__ two_servos)
    /\ pwm_construct hw_pin27_broken (pin servo_config) = true
    /\ dev_pin (new_servo {| name := "Base"; pin := 17 |}) = pin servo_config
    /\ dev_frequency (new_servo {| name := "Base"; pin := 17 |})
       = PWM_FREQUENCY
    /\ value (new_servo {| name := "Base"; pin := 17 |}) = CENTER_DUTY_CYCLE.
Proof.
  apply (initialize_servos_devices hw_pin27_broken
           (ServoController__init__ two_servos) "base"
           (new_servo {| name := "Base"; pin := 17 |}));
    vm_compute; reflexivity.
Defined.

End InitializeMore.

(** ** The status handlers *)

Section StatusHandlers.

Lemma get_servo_status_lookup servo_id c :
  get_servo_status servo_id c = _servo_states c !! servo_id.
Proof.
  unfold get_servo_status.
  destruct (_servo_states c !! servo_id) as [[v r] |]; reflexivity.
Qed.

Lemma get_all_servo_status_states c :
  get_all_servo_status c = _servo_states c.
Proof.
  apply map_eq. intros servo_id. unfold get_all_servo_status.
  rewrite map_lookup_imap, get_servo_status_lookup.
  destruct (_servo_states c !! servo_id); reflexivity.
Qed.

Lemma status_dict_no_status state : routes.status_dict state !! "status" = None.
Proof.
  unfold routes.status_dict.
  rewrite !lookup_insert_ne by discriminate. apply lookup_empty.
Qed.

(** The loop raises [KeyError] on its first item, if there is one. *)
Lemma format_statuses_outcome c :
  routes.format_statuses (map_to_list (routes.servo_statuses c)) ∅
  = match map_to_list (_servo_states c) with
    | [] => inr ∅
    | _ :: _ => inl (routes.Uncaught KeyError)
    end.
Proof.
  unfold routes.servo_statuses. rewrite get_all_servo_status_states.
  destruct (map_to_list (_servo_states c)) as [| e rest] eqn:E.
  - apply map_to_list_empty_iff in E. rewrite E, fmap_empty, map_to_list_empty.
    reflexivity.
  - destruct (map_to_list (routes.status_dict <$> _servo_states c))
      as [| [servo_id status] rest'] eqn:E'.
    + apply map_to_list_empty_iff, fmap_empty_inv in E'.
      rewrite E', map_to_list_empty in E. discriminate.
    + assert ((servo_id, status)
                ∈ map_to_list (routes.status_dict <$> _servo_states c)) as Hin
        by (rewrite E'; apply elem_of_cons; now left).
      apply elem_of_map_to_list in Hin. rewrite lookup_fmap in Hin.
      destruct (_servo_states c !! servo_id) as [state |];
        [| discriminate].
      injection Hin as <-. cbn [routes.format_statuses].
      now rewrite status_dict_no_status.
Qed.

(** X21: the handlers of [GET /api/servos] and [GET /api/status] raise
    [KeyError] as soon as one servo is registered, because the status
    dictionaries of the controller have no key "status"; with no servo
    registered they return an empty mapping, and [get_system_status]
    reports the emergency-stop flag. *)
Theorem status_handlers_fail_when_servos_registered utcnow c :
  (_servo_states c <> ∅ ->
   routes.get_servo_list c = inl (routes.Uncaught KeyError)
   /\ routes.get_system_status utcnow c = inl (routes.Uncaught KeyError))
  /\ (_servo_states c = ∅ ->
      routes.get_servo_list c = inr ∅
      /\ routes.get_system_status utcnow c
         = inr {| routes.system_status := "running";
                  routes.emergency_stop_active := _emergency_stop_active c;
                  routes.servos := ∅;
                  routes.timestamp := utcnow |}).
Proof.
  unfold routes.get_servo_list, routes.get_system_status.
  rewrite format_statuses_outcome.
  destruct (map_to_list (_servo_states c)) as [| e rest] eqn:E.
  - apply map_to_list_empty_iff in E.
    split; [contradiction | intros _; split; reflexivity].
  - split; [intros _; split; reflexivity |].
    intros Hempty. rewrite Hempty, map_to_list_empty in E. discriminate.
Qed.

Lemma status_handlers_fail_when_servos_registered_witness :
  routes.get_servo_list initialized = inl (routes.Uncaught KeyError)
  /\ routes.get_system_status 0 initialized = inl (routes.Uncaught KeyError).
Proof.
  apply (status_handlers_fail_when_servos_registered 0 initialized).
  intros H.
  assert (_servo_states initialized !! "base" = Some ServoState_default) as E
    by (vm_compute; reflexivity).
  rewrite H, lookup_empty in E. discriminate.
Defined.

End StatusHandlers.

(** ** The flag on reachable controllers *)

Section Reachable.

Lemma run_op_call hw op c : run_op hw op c = after (call hw op c).
Proof.
  destruct op; cbn [run_op call];
    match goal with |- context [outcome_of ?r] => destruct r end;
    reflexivity.
Qed.

Lemma run_op_held hw op c : _lock c = true -> run_op hw op c = c.
Proof.
  intros Hlock. now rewrite run_op_call, call_held.
Qed.

(** Only [emergency_stop] sets the flag, and it keeps the lock. *)
Lemma flag_needs_lock_step hw op c :
  (_emergency_stop_active c = true -> _lock c = true) ->
  _emergency_stop_active (run_op hw op c) = true ->
  _lock (run_op hw op c) = true.
Proof.
  intros H. destruct (_lock c) eqn:Hlock.
  { rewrite run_op_held by assumption. intros _. exact Hlock. }
  assert (_emergency_stop_active c = false) as Hflag.
  { destruct (_emergency_stop_active c); [| reflexivity].
    now specialize (H eq_refl). }
  clear H. destruct op as [| servo_id v | servo_id | | | |]; cbn [run_op].
  - rewrite initialize_servos_outcome by assumption. cbn. congruence.
  - destruct (set_servo_speed_after hw servo_id v c)
      as [-> | [(servo & duty & _ & _ & ->)
               | (servo & duty & st & _ & _ & _ & ->)]];
      cbn; congruence.
  - unfold stop_servo.
    destruct (set_servo_speed_after hw servo_id 0.0 c)
      as [-> | [(servo & duty & _ & _ & ->)
               | (servo & duty & st & _ & _ & _ & ->)]];
      cbn; congruence.
  - rewrite stop_all_servos_outcome by assumption.
    destruct (map_to_list (_servos c)); cbn; congruence.
  - rewrite emergency_stop_outcome, Hlock. reflexivity.
  - rewrite clear_emergency_stop_outcome by assumption. cbn. discriminate.
  - rewrite cleanup_outcome by assumption.
    destruct (map_to_list (_servos c)); cbn; congruence.
Qed.

Lemma reachable_flag_needs_lock c :
  reachable c -> _emergency_stop_active c = true -> _lock c = true.
Proof.
  induction 1 as [cfg | hw op c Hc IH].
  - discriminate.
  - now apply flag_needs_lock_step.
Qed.

(** C3 (the code on every reachable controller): in a state that public
    operations can produce from a new controller, a set flag means that
    [emergency_stop] still holds the lock.  A call
    [set_servo_speed(id, s)] made then does not return [False]: it waits
    for the lock forever and returns nothing, for every identifier and
    every speed; the controller is left as it was. *)
Theorem set_speed_blocks_while_emergency_stop hw servo_id v c :
  reachable c ->
  _emergency_stop_active c = true ->
  set_servo_speed hw servo_id v c = Blocked c.
Proof.
  intros Hreach Hflag.
  apply set_servo_speed_held. now apply reachable_flag_needs_lock.
Qed.

Lemma set_speed_blocks_while_emergency_stop_witness :
  set_servo_speed hw_ok "base" 0.3 (run_op hw_ok OpEmergencyStop base_running)
  = Blocked (run_op hw_ok OpEmergencyStop base_running).
Proof.
  apply (set_speed_blocks_while_emergency_stop hw_ok "base" 0.3
           (run_op hw_ok OpEmergencyStop base_running)).
  - exact (reachable_step hw_ok OpEmergencyStop _
             (reachable_step hw_ok (OpSetSpeed "base" 0.5) _
                (reachable_step hw_ok OpInitialize _
                   (reachable_init two_servos)))).
  - vm_compute. reflexivity.
Defined.

(** C10 (the code on every controller whose lock is free):
    [emergency_stop()] sets the flag but reports no result: it returns
    neither [True] nor [False] and raises nothing.  In the state it
    leaves, a later speed command is not answered with [False] by the
    interlock either: it waits for the lock forever. *)
Theorem emergency_stop_reports_no_result hw c :
  _lock c = false ->
  (forall ok c', emergency_stop hw c <> Return ok c')
  /\ (forall e c', emergency_stop hw c <> Raise e c')
  /\ _emergency_stop_active (after (emergency_stop hw c)) = true
  /\ forall hw' servo_id v,
       set_servo_speed hw' servo_id v (after (emergency_stop hw c))
       = Blocked (after (emergency_stop hw c)).
Proof.
  intros Hlock. rewrite emergency_stop_outcome, Hlock.
  split; [discriminate |]. split; [discriminate |].
  split; [reflexivity |].
  intros hw' servo_id v. now apply set_servo_speed_held.
Qed.

Lemma emergency_stop_reports_no_result_witness :
  (forall ok c', emergency_stop hw_ok base_running <> Return ok c')
  /\ (forall e c', emergency_stop hw_ok base_running <> Raise e c')
  /\ _emergency_stop_active (after (emergency_stop hw_ok base_running)) = true
  /\ forall hw' servo_id v,
       set_servo_speed hw' servo_id v
         (after (emergency_stop hw_ok base_running))
       = Blocked (after (emergency_stop hw_ok base_running)).
Proof.
  apply (emergency_stop_reports_no_result hw_ok base_running).
  vm_compute. reflexivity.
Defined.

End Reachable.
